(** * Thumbnail retrieval: CacheMap, BifThumbnailManager, FfmpegThumbnailManager
      and the ThumbnailManager singleton.

    A shallow embedding of the server-side thumbnail code (the second unit of
    [src/Client/Script/ThemeColors.js]).  JavaScript numbers that the code only
    ever uses as integers (metadata ids, millisecond timestamps, ranks, ticks,
    32-bit integers read from a BIF file) are [Z]; buffers are [list byte];
    JavaScript objects used as dictionaries are [gmap]s.  Every operation
    returns, next to its result, the new state and the list of observable
    events it performed (log lines, database queries, filesystem probes,
    subprocess runs), in program order. *)

From Stdlib Require Import ZArith List Lia.
From Stdlib Require Import Strings.String Strings.Byte.
From stdpp Require Import base option list gmap strings pretty.

Local Open Scope Z_scope.

(** ** Observable events *)

Inductive Level := Tmi | Verbose | Warn | Err.

(** The argument vector handed to [execFileSync('ffmpeg', ...)]: only the
    three arguments that vary are kept. *)
Record FfmpegArgs := mkFfmpegArgs {
  arg_ss : Z;              (* '-ss', `${timestamp}ms` *)
  arg_input : string;      (* '-i', episodeCache.filePath *)
  arg_output : string      (* saveFile *)
}.

Inductive Event :=
| Logged (lvl : Level) (msg : string)
| DbAll (metadataId : Z)            (* this.database.all(query, [metadataId]) *)
| StatSync (path : string)
| ExistsSync (path : string)
| ReadFile (path : string)          (* readFile / readFileSync *)
| MkdirSync (path : string)
| ExecFfmpeg (args : FfmpegArgs)    (* execFileSync('ffmpeg', ..., {timeout: 10000}) *)
| RmSync (path : string).

Definition is_db_query (e : Event) : bool :=
  match e with DbAll _ => true | _ => false end.

Definition is_warning (e : Event) : bool :=
  match e with Logged Warn _ => true | _ => false end.

(** The number of database queries among the events. *)
Definition countDb (ev : list Event) : nat := length (List.filter is_db_query ev).

(** The argument vectors of the subprocess runs among the events. *)
Definition execArgs (ev : list Event) : list FfmpegArgs :=
  omap (fun e => match e with ExecFfmpeg a => Some a | _ => None end) ev.

(** ** CacheMap *)

(** class CachedThumbnail *)
Record CachedThumbnail := mkCachedThumbnail {
  data : list byte;
  rank : Z
}.

Section CacheMap.
(** The fields a derived item class adds to [MediaItemCache]
    ([bifPath]/[interval], or [filePath]/[duration]). *)
Context {L : Type}.

(** class MediaItemCache (with the derived class's fields in [locator]) *)
Record MediaItemCache := mkMediaItemCache {
  hasThumbs : bool;
  cachedThumbnails : gmap Z CachedThumbnail;
  locator : L
}.

(** class CacheMap; [#maxTick] is the constant 20. *)
Record CacheMap := mkCacheMap {
  maxCache : Z;
  tick : Z;
  cacheMap : gmap Z MediaItemCache
}.

Definition maxTick : Z := 20.

(** new CacheMap(maxCache) *)
Definition newCacheMap (mc : Z) : CacheMap :=
  {| maxCache := mc; tick := 0; cacheMap := ∅ |}.

(** _addItem(metadataId, episodeCache) *)
Definition _addItem (c : CacheMap) (metadataId : Z) (episodeCache : MediaItemCache)
  : CacheMap :=
  {| maxCache := maxCache c; tick := tick c;
     cacheMap := <[metadataId := episodeCache]> (cacheMap c) |}.

(** getItem(metadataId): [None] is the source's [false]. *)
Definition getItem (c : CacheMap) (metadataId : Z) : option MediaItemCache :=
  cacheMap c !! metadataId.

(** One iteration of the inner loop of [#touch]:
    [(thumb.rank -= maxTick) <= 0] deletes the thumbnail. *)
Definition decay (t : CachedThumbnail) : option CachedThumbnail :=
  let r := rank t - maxTick in
  if r <=? 0 then None else Some {| data := data t; rank := r |}.

Definition sweepItem (cacheItem : MediaItemCache) : MediaItemCache :=
  {| hasThumbs := hasThumbs cacheItem;
     cachedThumbnails := omap decay (cachedThumbnails cacheItem);
     locator := locator cacheItem |}.

(** #touch() *)
Definition touch (c : CacheMap) : CacheMap * list Event :=
  let t := tick c + 1 in
  if t =? maxTick then
    ({| maxCache := maxCache c; tick := 0; cacheMap := sweepItem <$> cacheMap c |},
     [Logged Tmi "Updating thumbnail LRU cache"])
  else
    ({| maxCache := maxCache c; tick := t; cacheMap := cacheMap c |}, []).

(** The value of [#tick] after [#touch()], from its value [t] before. *)
Definition nextTick (t : Z) : Z := if t + 1 =? maxTick then 0 else t + 1.

(** [this.#cacheMap[metadataId].cachedThumbnails[timestamp] = thumb] *)
Definition setThumb (c : CacheMap) (metadataId timestamp : Z) (thumb : CachedThumbnail)
  : CacheMap :=
  {| maxCache := maxCache c; tick := tick c;
     cacheMap :=
       alter (fun it => {| hasThumbs := hasThumbs it;
                           cachedThumbnails := <[timestamp := thumb]> (cachedThumbnails it);
                           locator := locator it |})
             metadataId (cacheMap c) |}.

(** add(metadataId, timestamp, buffer) *)
Definition add (c : CacheMap) (metadataId timestamp : Z) (buffer : list byte)
  : CacheMap * list Event :=
  match cacheMap c !! metadataId with
  | None =>
      (c, [Logged Warn ("Unable to add thumbnail to cache, episode cache for "
                          +:+ pretty metadataId +:+ " is not initialized!")])
  | Some _ =>
      let '(c1, ev) := touch c in
      (setThumb c1 metadataId timestamp
                {| data := buffer; rank := maxCache c1 + 1 |}, ev)
  end.

(** tryGet(metadataId, timestamp): [None] is the source's [false]. *)
Definition tryGet (c : CacheMap) (metadataId timestamp : Z)
  : option (list byte) * CacheMap * list Event :=
  match cacheMap c !! metadataId with
  | None => (None, c, [])
  | Some item =>
      match cachedThumbnails item !! timestamp with
      | None => (None, c, [])
      | Some thumbEntry =>
          let c1 := setThumb c metadataId timestamp
                      {| data := data thumbEntry; rank := maxCache c + 1 |} in
          let '(c2, ev) := touch c1 in
          (Some (data thumbEntry), c2, ev)
      end
  end.

(** The thumbnail stored for a (metadataId, timestamp) pair, if any. *)
Definition thumbAt (c : CacheMap) (metadataId timestamp : Z) : option CachedThumbnail :=
  cacheMap c !! metadataId ≫= fun it => cachedThumbnails it !! timestamp.

(** [n] sweeps in a row over one sub-entry. *)
Fixpoint decayN (n : nat) (o : option CachedThumbnail) : option CachedThumbnail :=
  match n with
  | O => o
  | S n' => decayN n' (o ≫= decay)
  end.

(** *** Sequences of cache operations *)

Inductive CacheOp :=
| OpAdd (metadataId timestamp : Z) (buffer : list byte)
| OpTryGet (metadataId timestamp : Z)
| OpTouch
| OpGetItem (metadataId : Z)
| OpAddItem (metadataId : Z) (episodeCache : MediaItemCache).

Definition step (c : CacheMap) (op : CacheOp) : CacheMap :=
  match op with
  | OpAdd i t b => (add c i t b).1
  | OpTryGet i t => (tryGet c i t).1.2
  | OpTouch => (touch c).1
  | OpGetItem _ => c
  | OpAddItem i it => _addItem c i it
  end.

(** Whether the operation reaches [#touch()] in state [c]. *)
Definition touches (c : CacheMap) (op : CacheOp) : bool :=
  match op with
  | OpAdd i _ _ => bool_decide (is_Some (cacheMap c !! i))
  | OpTryGet i t => bool_decide (is_Some (thumbAt c i t))
  | OpTouch => true
  | OpGetItem _ | OpAddItem _ _ => false
  end.

Fixpoint run (c : CacheMap) (ops : list CacheOp) : CacheMap :=
  match ops with
  | [] => c
  | op :: ops' => run (step c op) ops'
  end.

Fixpoint touchCount (c : CacheMap) (ops : list CacheOp) : Z :=
  match ops with
  | [] => 0
  | op :: ops' => (if touches c op then 1 else 0) + touchCount (step c op) ops'
  end.

(** The operation neither reads nor writes sub-entry (i, t), and does not
    replace item [i]. *)
Definition avoids (i t : Z) (op : CacheOp) : Prop :=
  match op with
  | OpAdd i' t' _ | OpTryGet i' t' => ¬ (i' = i ∧ t' = t)
  | OpAddItem i' _ => i' ≠ i
  | OpTouch | OpGetItem _ => True
  end.

Definition replaces (i : Z) (op : CacheOp) : Prop :=
  match op with OpAddItem i' _ => i' = i | _ => False end.

End CacheMap.

Arguments MediaItemCache : clear implicits.
Arguments CacheMap : clear implicits.
Arguments CacheOp : clear implicits.

(** ** Results of asynchronous operations *)

Inductive Error :=
| ServerError (msg : string)      (* throw new ServerError(msg) *)
| RejectReason (msg : string)     (* reject('...') with a plain string *)
| RangeError                      (* thrown by a Buffer method *)
| TypeError
| DatabaseError                   (* database.all rejected *)
| ENOENT (path : string)          (* readFileSync on a missing file *)
| SubprocessFailure (timedOut : bool).   (* thrown by execFileSync *)

(** [Resolved]/[Rejected]: the promise settles.  [Uncaught]: an exception
    escapes the [readFile] callback, outside any promise; the promise is never
    settled. *)
Inductive outcome (A : Type) :=
| Resolved (a : A)
| Rejected (e : Error)
| Uncaught (e : Error).
Arguments Resolved {A} a.
Arguments Rejected {A} e.
Arguments Uncaught {A} e.

Definition Eff (S A : Type) : Type := S -> outcome A * S * list Event.

Definition ret {S A} (a : A) : Eff S A := fun s => (Resolved a, s, []).
Definition throw {S A} (e : Error) : Eff S A := fun s => (Rejected e, s, []).
Definition crash {S A} (e : Error) : Eff S A := fun s => (Uncaught e, s, []).
Definition emit {S} (e : Event) : Eff S unit := fun s => (Resolved tt, s, [e]).
Definition bind {S A B} (m : Eff S A) (k : A -> Eff S B) : Eff S B :=
  fun s =>
    match m s with
    | (Resolved a, s1, ev1) => let '(o, s2, ev2) := k a s1 in (o, s2, ev1 ++ ev2)
    | (Rejected e, s1, ev1) => (Rejected e, s1, ev1)
    | (Uncaught e, s1, ev1) => (Uncaught e, s1, ev1)
    end.

(** The events [ev] followed by those of a result. *)
Definition prepend {S A} (ev : list Event) (r : outcome A * S * list Event)
  : outcome A * S * list Event :=
  let '(o, s, ev') := r in (o, s, ev ++ ev').

Declare Scope eff_scope.
Delimit Scope eff_scope with eff.
Notation "'do' x <- m ; k" := (bind m (fun x => k))
  (at level 10, x name, m at level 100, k at level 200) : eff_scope.
Notation "'run!' m ; k" := (bind m (fun _ => k))
  (at level 10, m at level 100, k at level 200) : eff_scope.

(** A value read from a buffer inside the [readFile] callback: an out-of-range
    read throws there. *)
Definition orCrash {S A} (o : option A) : Eff S A :=
  match o with Some a => ret a | None => crash RangeError end.

(** ** JavaScript numbers and Node buffers *)

(** The value of [Math.floor(a / b)] for integers [a], [b] (below 2^53 in
    magnitude, where the double division followed by [floor] is exact). *)
Inductive jsnum := Fin (z : Z) | PosInf | NegInf | NaN.

Definition floorDiv (a b : Z) : jsnum :=
  if b =? 0 then
    if 0 <? a then PosInf else if a <? 0 then NegInf else NaN
  else Fin (a / b).

(** [x > y] and [x < y] for a [jsnum] against an integer. *)
Definition js_gt (x : jsnum) (y : Z) : bool :=
  match x with Fin z => y <? z | PosInf => true | NegInf | NaN => false end.
Definition js_lt (x : jsnum) (y : Z) : bool :=
  match x with Fin z => z <? y | NegInf => true | PosInf | NaN => false end.

Definition byteZ (b : byte) : Z := Z.of_N (Byte.to_N b).

(** buf.readInt32LE(offset): [None] is the RangeError thrown unless
    [0 <= offset <= buf.length - 4]. *)
Definition readInt32LE (buf : list byte) (offset : Z) : option Z :=
  if (0 <=? offset) && (offset + 4 <=? Z.of_nat (length buf)) then
    match drop (Z.to_nat offset) buf with
    | b0 :: b1 :: b2 :: b3 :: _ =>
        let u := Z.lor (byteZ b0)
                  (Z.lor (Z.shiftl (byteZ b1) 8)
                    (Z.lor (Z.shiftl (byteZ b2) 16) (Z.shiftl (byteZ b3) 24))) in
        Some (if Z.testbit u 31 then u - 2 ^ 32 else u)
    | _ => None
    end
  else None.

(** [thumbBuf = Buffer.alloc(thumbEnd - thumbStart);
     data.copy(thumbBuf, 0, thumbStart, thumbEnd)]: the zero-filled buffer
    after the copy.  [None] is the RangeError of [Buffer.alloc] on a negative
    size, or of [copy] on a negative [sourceStart]/[sourceEnd] or on a
    [sourceStart] beyond the source when there is something to copy. *)
Definition allocCopy (buf : list byte) (thumbStart thumbEnd : Z) : option (list byte) :=
  let size := thumbEnd - thumbStart in
  if size <? 0 then None
  else if (thumbStart <? 0) || (thumbEnd <? 0) then None
  else if size =? 0 then Some []
  else if Z.of_nat (length buf) <? thumbStart then None
  else
    Some (take (Z.to_nat size)
            (drop (Z.to_nat thumbStart) buf ++ replicate (Z.to_nat size) "000"%byte)).

(** The bytes of [buf] in the half-open range [[lo, hi)]. *)
Definition byteRange (buf : list byte) (lo hi : Z) : list byte :=
  take (Z.to_nat (hi - lo)) (drop (Z.to_nat lo) buf).

(** ** The filesystem *)

Record File := mkFile {
  mtimeMs : Z;
  contents : list byte
}.

Record Disk := mkDisk {
  files : gmap string File;
  dirs : gset string
}.

(** path.join on segments that are already normalised: empty segments are
    dropped, the others are joined with the separator. *)
Fixpoint joinPath (segs : list string) : string :=
  match segs with
  | [] => ""
  | s :: rest =>
      if decide (s = "") then joinPath rest
      else match joinPath rest with
           | "" => s
           | r => s +:+ "/" +:+ r
           end
  end.

(** statSync(path, { throwIfNoEntry : false }).mtimeMs *)
Definition statSync (fs : Disk) (path : string) : option Z :=
  mtimeMs <$> files fs !! path.

Definition existsSync (fs : Disk) (path : string) : bool :=
  bool_decide (is_Some (files fs !! path)) || bool_decide (path ∈ dirs fs).

(** ** The database *)

Record HashRow := mkHashRow { row_id : Z; hash : string }.
Record FileRow := mkFileRow { file : string; row_duration : Z }.

(** [database.all(query, [metadataId])] for the two queries of this module;
    [None] is a rejected query. *)
Record DatabaseWrapper := mkDatabaseWrapper {
  hashQuery : Z -> option (list HashRow);
  fileQuery : Z -> option (list FileRow)
}.

(** ** BifThumbnailManager *)

Module Bif.
Local Open Scope eff_scope.

(** class BifMediaItemCache: the fields it adds to MediaItemCache. *)
Record BifLoc := mkBifLoc {
  bifPath : string;
  interval : Z
}.

(** new BifMediaItemCache(hasThumbs, bifPath='') *)
Definition newItem (hasThumbs : bool) (bifPath : string) : MediaItemCache BifLoc :=
  {| hasThumbs := hasThumbs; cachedThumbnails := ∅;
     locator := {| bifPath := bifPath; interval := 0 |} |}.

(** BifCacheMap.addItem(metadataId, hasThumbs, bifPath='') *)
Definition addItem (c : CacheMap BifLoc) (metadataId : Z) (hasThumbs : bool)
    (bifPath : string) : CacheMap BifLoc :=
  _addItem c metadataId (newItem hasThumbs bifPath).

Record BifThumbnailManager := mkManager {
  database : DatabaseWrapper;
  metadataPath : string;
  cache : CacheMap BifLoc
}.

(** new BifThumbnailManager(db, metadataPath) *)
Definition new (db : DatabaseWrapper) (metadataPath : string) : BifThumbnailManager :=
  {| database := db; metadataPath := metadataPath; cache := newCacheMap 200 |}.

Definition setCache (m : BifThumbnailManager) (c : CacheMap BifLoc) : BifThumbnailManager :=
  {| database := database m; metadataPath := metadataPath m; cache := c |}.

(** [thumbCache.interval = v] on the item object held by the cache map. *)
Definition setInterval (metadataId v : Z) : Eff BifThumbnailManager unit :=
  fun m =>
    (Resolved tt,
     setCache m
       {| maxCache := maxCache (cache m); tick := tick (cache m);
          cacheMap :=
            alter (fun it => {| hasThumbs := hasThumbs it;
                                cachedThumbnails := cachedThumbnails it;
                                locator := {| bifPath := bifPath (locator it);
                                              interval := v |} |})
                  metadataId (cacheMap (cache m)) |},
     []).

(** The path of the index file of a media part: [None] when [row.hash] is
    empty, where [row.hash[0]] is undefined and [path.join] throws. *)
Definition bifPathOf (metadataPath hash : string) : option string :=
  match hash with
  | EmptyString => None
  | String c rest =>
      Some (joinPath [metadataPath; "Media"; "localhost"; String c EmptyString;
                      rest +:+ ".bundle"; "Contents"; "Indexes"; "index-sd.bif"])
  end.

(** let newest = { path : '', mtime : 0, found : 0 } *)
Record Newest := mkNewest {
  n_path : string;
  n_mtime : Z;
  n_found : Z
}.

Definition newest0 : Newest := {| n_path := ""; n_mtime := 0; n_found := 0 |}.

(** The loop [for (const row of rows)] of hasThumbnails. *)
Fixpoint scanRows {S} (fs : Disk) (metadataPath : string) (rows : list HashRow)
    (newest : Newest) : Eff S Newest :=
  match rows with
  | [] => ret newest
  | row :: rows' =>
      match bifPathOf metadataPath (hash row) with
      | None => throw TypeError
      | Some p =>
          run! emit (StatSync p);
          scanRows fs metadataPath rows'
            match statSync fs p with
            | Some mtime =>
                {| n_path := if n_mtime newest <? mtime then p else n_path newest;
                   n_mtime := if n_mtime newest <? mtime then mtime else n_mtime newest;
                   n_found := n_found newest + 1 |}
            | None => newest
            end
      end
  end.

Definition dbAll (metadataId : Z) : Eff BifThumbnailManager (list HashRow) :=
  fun m =>
    match hashQuery (database m) metadataId with
    | Some rows => (Resolved rows, m, [DbAll metadataId])
    | None => (Rejected DatabaseError, m, [DbAll metadataId])
    end.

Definition cacheAddItem (metadataId : Z) (hasThumbs : bool) (bifPath : string)
  : Eff BifThumbnailManager unit :=
  fun m => (Resolved tt, setCache m (addItem (cache m) metadataId hasThumbs bifPath), []).

Definition cacheAdd (metadataId index : Z) (thumbBuf : list byte)
  : Eff BifThumbnailManager unit :=
  fun m => let '(c, ev) := add (cache m) metadataId index thumbBuf in
           (Resolved tt, setCache m c, ev).

Definition cacheTryGet (metadataId index : Z)
  : Eff BifThumbnailManager (option (list byte)) :=
  fun m => let '(r, c, ev) := tryGet (cache m) metadataId index in
           (Resolved r, setCache m c, ev).

(** async hasThumbnails(metadataId) *)
Definition hasThumbnails (fs : Disk) (metadataId : Z) : Eff BifThumbnailManager bool :=
  fun m =>
    match getItem (cache m) metadataId with
    | Some cached => ret (hasThumbs cached) m
    | None =>
        (do rows <- dbAll metadataId;
         do newest <- scanRows fs (metadataPath m) rows newest0;
         if decide (n_path newest ≠ "") then
           run! emit (Logged Verbose
                        ("Found thumbnail index file for " +:+ pretty metadataId
                           +:+ (if 1 <? n_found newest
                                then " (newest of " +:+ pretty (n_found newest) +:+ ")"
                                else "")));
           run! cacheAddItem metadataId true (n_path newest);
           ret true
         else
           run! emit (Logged Verbose
                        ("Did not find thumbnail index file for " +:+ pretty metadataId));
           run! cacheAddItem metadataId false "";
           ret false) m
    end.

Definition thumbnailCountOffset : Z := 0xC.
Definition indexTableStart : Z := 0x40.
Definition recordSize : Z := 0x8.
Definition timestampSize : Z := 0x4.

Definition getOffset (data : list byte) (index : Z) : option Z :=
  readInt32LE data (indexTableStart + index * recordSize + timestampSize).
Definition getTimestamp (data : list byte) (index : Z) : option Z :=
  readInt32LE data (indexTableStart + index * recordSize).

(** [if (thumbCache.interval == 0) { ... }] of the readFile callback; returns
    the value of [thumbCache.interval] afterwards.  The item is the object
    [#readThumbnail] fetched before reading the file, so the first branch is
    never taken from there. *)
Definition discoverInterval (data : list byte) (metadataId : Z)
  : Eff BifThumbnailManager Z :=
  fun m =>
    match getItem (cache m) metadataId with
    | None => crash TypeError m
    | Some thumbCache =>
        if interval (locator thumbCache) =? 0 then
          (do verify <- orCrash (getTimestamp data 0);
           if verify =? 0 then
             do iv <- orCrash (getTimestamp data 1);
             run! setInterval metadataId iv;
             ret iv
           else throw (RejectReason "Unexpected thumbnail file contents")) m
        else ret (interval (locator thumbCache)) m
    end.

(** [if (index > maxIndex) {...} else if (index < 0) {...}] *)
Definition clampIndex {S} (index : jsnum) (maxIndex : Z) : Eff S jsnum :=
  if js_gt index maxIndex then
    run! emit (Logged Warn
      "Received thumbnail request beyond max timestamp. Retrieving last thumbnail instead.");
    ret (Fin maxIndex)
  else if js_lt index 0 then
    run! emit (Logged Warn
      "Received negative thumbnail request. Retrieving first thumbnail instead.");
    ret (Fin 0)
  else ret index.

(** The byte range [[thumbStart, thumbEnd)] of frame [index]. *)
Definition frameSpan {S} (data : list byte) (index maxIndex : Z) : Eff S (Z * Z) :=
  do thumbStart <- orCrash (getOffset data index);
  do thumbEnd <- (if index =? maxIndex then ret (Z.of_nat (length data))
                  else orCrash (getOffset data (index + 1)));
  ret (thumbStart, thumbEnd).

(** The end of the readFile callback, from [const thumbStart = ...] on, for
    the clamped [index]; [getOffset(NaN)] throws. *)
Definition extractFrame (data : list byte) (metadataId : Z) (index : jsnum)
    (maxIndex : Z) : Eff BifThumbnailManager (list byte) :=
  match index with
  | Fin index =>
      do span <- frameSpan data index maxIndex;
      do thumbBuf <- orCrash (allocCopy data span.1 span.2);
      run! emit (Logged Verbose
                   ("Thumbnail found, caching (" +:+ pretty (span.2 - span.1) +:+ " bytes)."));
      run! cacheAdd metadataId index thumbBuf;
      ret thumbBuf
  | _ => crash RangeError
  end.

(** The body of the readFile callback once the file was read into [data]. *)
Definition readCallback (data : list byte) (metadataId timestamp : Z)
  : Eff BifThumbnailManager (list byte) :=
  do iv <- discoverInterval data metadataId;
  do count <- orCrash (readInt32LE data thumbnailCountOffset);
  do index <- clampIndex (floorDiv timestamp iv) (count - 1);
  extractFrame data metadataId index (count - 1).

(** async #readThumbnail(metadataId, timestamp), timestamp in seconds *)
Definition readThumbnail (fs : Disk) (metadataId timestamp : Z)
  : Eff BifThumbnailManager (list byte) :=
  fun m =>
    match getItem (cache m) metadataId with
    | None => throw TypeError m
    | Some thumbCache =>
        (run! emit (ReadFile (bifPath (locator thumbCache)));
         match files fs !! bifPath (locator thumbCache) with
         | None => throw (RejectReason "Failed to read thumbnail file")
         | Some f => readCallback (contents f) metadataId timestamp
         end) m
    end.

(** async #getThumbnailCore(metadataId, timestamp), timestamp in seconds *)
Definition getThumbnailCore (fs : Disk) (metadataId timestamp : Z)
  : Eff BifThumbnailManager (list byte) :=
  fun m =>
    match getItem (cache m) metadataId with
    | None => throw (ServerError ("No thumbnails for " +:+ pretty metadataId)) m
    | Some thumbCache =>
        if hasThumbs thumbCache then
          if interval (locator thumbCache) =? 0 then
            readThumbnail fs metadataId timestamp m
          else
            (do cachedData <-
               cacheTryGet metadataId (timestamp / interval (locator thumbCache));
             match cachedData with
             | Some cachedData =>
                 run! emit (Logged Verbose
                              ("Found cached thumbnail for " +:+ pretty metadataId
                                 +:+ ":" +:+ pretty timestamp +:+ "."));
                 ret cachedData
             | None => readThumbnail fs metadataId timestamp
             end) m
        else throw (ServerError ("No thumbnails for " +:+ pretty metadataId)) m
    end.

(** async getThumbnail(metadataId, timestamp), timestamp in milliseconds *)
Definition getThumbnail (fs : Disk) (metadataId timestamp : Z)
  : Eff BifThumbnailManager (list byte) :=
  fun m =>
    let timestamp := timestamp / 1000 in
    match getItem (cache m) metadataId with
    | None =>
        (do _ <- hasThumbnails fs metadataId;
         getThumbnailCore fs metadataId timestamp) m
    | Some _ => getThumbnailCore fs metadataId timestamp m
    end.

End Bif.

(** ** FfmpegThumbnailManager *)

Module Ffmpeg.
Local Open Scope eff_scope.

(** class FfmpegMediaItemCache: the fields it adds to MediaItemCache. *)
Record FfmpegLoc := mkFfmpegLoc {
  filePath : string;
  duration : Z
}.

(** new FfmpegMediaItemCache(hasThumbs, filePath='', duration=0) *)
Definition newItem (hasThumbs : bool) (filePath : string) (duration : Z)
  : MediaItemCache FfmpegLoc :=
  {| hasThumbs := hasThumbs; cachedThumbnails := ∅;
     locator := {| filePath := filePath; duration := duration |} |}.

(** FfmpegCacheMap.addItem(metadataId, hasThumbs, filePath='', duration=0) *)
Definition addItem (c : CacheMap FfmpegLoc) (metadataId : Z) (hasThumbs : bool)
    (filePath : string) (duration : Z) : CacheMap FfmpegLoc :=
  _addItem c metadataId (newItem hasThumbs filePath duration).

Record FfmpegThumbnailManager := mkManager {
  database : DatabaseWrapper;
  cache : CacheMap FfmpegLoc
}.

(** static #maxCache = 200 *)
Definition maxCache : Z := 200.

(** new FfmpegThumbnailManager(db) *)
Definition new (db : DatabaseWrapper) : FfmpegThumbnailManager :=
  {| database := db; cache := newCacheMap maxCache |}.

(** How a run of the ffmpeg subprocess under [execFileSync] with the 10 s
    timeout ended, and what it left at its output path. *)
Inductive ExitStatus := Exited (code : Z) | TimedOut.

Record ExecResult := mkExecResult {
  exit : ExitStatus;
  written : option File
}.

Definition timedOut (r : ExecResult) : bool :=
  match exit r with TimedOut => true | Exited _ => false end.

(** The surroundings of the manager: [Config.projectRoot()], the subprocess,
    and whether [rmSync] on the cache folder throws. *)
Record Env := mkEnv {
  projectRoot : string;
  ffmpeg : FfmpegArgs -> ExecResult;
  rmSyncThrows : bool
}.

(** The state the operations act on: the disk and the manager object. *)
Record World := mkWorld {
  fs : Disk;
  mgr : FfmpegThumbnailManager
}.

Definition setCache (w : World) (c : CacheMap FfmpegLoc) : World :=
  {| fs := fs w; mgr := {| database := database (mgr w); cache := c |} |}.

Definition setFS (w : World) (fs' : Disk) : World :=
  {| fs := fs'; mgr := mgr w |}.

Definition dbAll (metadataId : Z) : Eff World (list FileRow) :=
  fun w =>
    match fileQuery (database (mgr w)) metadataId with
    | Some rows => (Resolved rows, w, [DbAll metadataId])
    | None => (Rejected DatabaseError, w, [DbAll metadataId])
    end.

Definition cacheAddItem (metadataId : Z) (hasThumbs : bool) (filePath : string)
    (duration : Z) : Eff World unit :=
  fun w => (Resolved tt,
            setCache w (addItem (cache (mgr w)) metadataId hasThumbs filePath duration), []).

Definition cacheAdd (metadataId timestamp : Z) (buffer : list byte) : Eff World unit :=
  fun w => let '(c, ev) := add (cache (mgr w)) metadataId timestamp buffer in
           (Resolved tt, setCache w c, ev).

Definition cacheTryGet (metadataId timestamp : Z) : Eff World (option (list byte)) :=
  fun w => let '(r, c, ev) := tryGet (cache (mgr w)) metadataId timestamp in
           (Resolved r, setCache w c, ev).

(** The loop [for (const file of rows)] of hasThumbnails: the first row whose
    file exists. *)
Fixpoint findFile (rows : list FileRow) : Eff World (option FileRow) :=
  match rows with
  | [] => ret None
  | row :: rows' =>
      run! emit (ExistsSync (file row));
      fun w => if existsSync (fs w) (file row) then ret (Some row) w
               else findFile rows' w
  end.

(** async hasThumbnails(metadataId) *)
Definition hasThumbnails (metadataId : Z) : Eff World bool :=
  fun w =>
    match getItem (cache (mgr w)) metadataId with
    | Some cached => ret (hasThumbs cached) w
    | None =>
        (do rows <- dbAll metadataId;
         do found <- findFile rows;
         match found with
         | Some row =>
             run! emit (Logged Verbose ("Found file for " +:+ pretty metadataId));
             run! cacheAddItem metadataId true (file row) (row_duration row);
             ret true
         | None =>
             run! emit (Logged Verbose ("No file found for " +:+ pretty metadataId));
             run! cacheAddItem metadataId false "" 0;
             ret false
         end) w
    end.

(** [Math.round(Math.min(maxDuration - 1000, Math.floor(timestamp / 100) * 100))];
    on integers [Math.round] changes nothing. *)
Definition effectiveTimestamp (maxDuration timestamp : Z) : Z :=
  Z.min (maxDuration - 1000) (timestamp / 100 * 100).

Definition savePath (env : Env) (metadataId : Z) : string :=
  joinPath [projectRoot env; "cache"; pretty metadataId].
Definition saveFile (env : Env) (metadataId timestamp : Z) : string :=
  joinPath [savePath env metadataId; pretty timestamp +:+ ".jpg"].

(** readFileSync(path) *)
Definition readFileSync (path : string) : Eff World (list byte) :=
  run! emit (ReadFile path);
  fun w => match files (fs w) !! path with
           | Some f => ret (contents f) w
           | None => throw (ENOENT path) w
           end.

(** mkdirSync(savePath, { recursive : true }) *)
Definition mkdirSync (env : Env) (metadataId : Z) : Eff World unit :=
  run! emit (MkdirSync (savePath env metadataId));
  fun w => (Resolved tt,
            setFS w {| files := files (fs w);
                       dirs := {[ joinPath [projectRoot env; "cache"] ]}
                                 ∪ {[ savePath env metadataId ]} ∪ dirs (fs w) |}, []).

(** execFileSync('ffmpeg', [...], { timeout : 10000 }): whatever the
    subprocess wrote at its output path stays on disk; a timeout or a non-zero
    exit code throws. *)
Definition execFileSync (env : Env) (args : FfmpegArgs) : Eff World unit :=
  run! emit (ExecFfmpeg args);
  fun w =>
    let r := ffmpeg env args in
    let w' := match written r with
              | Some f => setFS w {| files := <[arg_output args := f]> (files (fs w));
                                     dirs := dirs (fs w) |}
              | None => w
              end in
    match exit r with
    | Exited 0 => (Resolved tt, w', [])
    | _ => (Rejected (SubprocessFailure (timedOut r)), w', [])
    end.

(** #fileCacheOrGenerate(metadataId, timestamp) *)
Definition fileCacheOrGenerate (env : Env) (metadataId timestamp : Z)
  : Eff World (list byte) :=
  run! emit (ExistsSync (saveFile env metadataId timestamp));
  fun w =>
    if existsSync (fs w) (saveFile env metadataId timestamp) then
      (run! emit (Logged Tmi ("Found cached thumbnail file for " +:+ pretty metadataId
                                +:+ ":" +:+ pretty timestamp));
       do data <- readFileSync (saveFile env metadataId timestamp);
       run! cacheAdd metadataId timestamp data;
       ret data) w
    else
      (run! mkdirSync env metadataId;
       fun w1 =>
         match getItem (cache (mgr w1)) metadataId with
         | None => throw TypeError w1
         | Some episodeCache =>
             (run! execFileSync env
                     {| arg_ss := timestamp;
                        arg_input := filePath (locator episodeCache);
                        arg_output := saveFile env metadataId timestamp |};
              do data <- readFileSync (saveFile env metadataId timestamp);
              run! cacheAdd metadataId timestamp data;
              run! emit (Logged Tmi ("Generated thumbnail " +:+ pretty metadataId
                                       +:+ ":" +:+ pretty timestamp));
              ret data) w1
         end) w.

(** async #getThumbnailCore(metadataId, timestamp) *)
Definition getThumbnailCore (env : Env) (metadataId timestamp : Z)
  : Eff World (list byte) :=
  fun w =>
    match getItem (cache (mgr w)) metadataId with
    | None => throw (ServerError ("No thumbnails for " +:+ pretty metadataId)) w
    | Some item =>
        if hasThumbs item then
          let maxDuration := duration (locator item) in
          let timestamp := effectiveTimestamp maxDuration timestamp in
          (do cachedThumb <- cacheTryGet metadataId timestamp;
           match cachedThumb with
           | Some cachedThumb =>
               run! emit (Logged Tmi ("Found cached thumbnail for " +:+ pretty metadataId
                                        +:+ ":" +:+ pretty timestamp));
               ret cachedThumb
           | None => fileCacheOrGenerate env metadataId timestamp
           end) w
        else throw (ServerError ("No thumbnails for " +:+ pretty metadataId)) w
    end.

(** async getThumbnail(metadataId, timestamp) *)
Definition getThumbnail (env : Env) (metadataId timestamp : Z) : Eff World (list byte) :=
  fun w =>
    match getItem (cache (mgr w)) metadataId with
    | None =>
        (do _ <- hasThumbnails metadataId;
         getThumbnailCore env metadataId timestamp) w
    | Some _ => getThumbnailCore env metadataId timestamp w
    end.

(** Whether [path] is [root] or lies below it. *)
Definition under (root path : string) : bool :=
  String.eqb root path || String.prefix (root +:+ "/") path.

(** close(fullShutdown) *)
Definition close (env : Env) (fullShutdown : bool) : Eff World unit :=
  if fullShutdown then
    let cacheRoot := joinPath [projectRoot env; "cache"] in
    run! emit (ExistsSync cacheRoot);
    fun w =>
      if existsSync (fs w) cacheRoot then
        if rmSyncThrows env then
          (Resolved tt, w,
           [RmSync cacheRoot;
            Logged Warn "FfmpegThumbnailManager: Failed to clear cached thumbnails."])
        else
          (Resolved tt,
           setFS w {| files := filter (fun kv => under cacheRoot kv.1 = false) (files (fs w));
                      dirs := filter (fun p => under cacheRoot p = false) (dirs (fs w)) |},
           [RmSync cacheRoot;
            Logged Verbose "FfmpegThumbnailManager: Successfully removed cached thumbnails."])
      else ret tt w
  else
    emit (Logged Verbose "FfmpegThumbnailManager: Not a full shutdown, not clearing cache.").

End Ffmpeg.

(** ** ThumbnailManager: the singleton and its static methods *)

Module ThumbnailManager.
Local Open Scope eff_scope.

(** A manager object is an instance of one of the two derived classes. *)
Inductive Backend :=
| BifBackend (m : Bif.BifThumbnailManager)
| FfmpegBackend (m : Ffmpeg.FfmpegThumbnailManager).

(** The objects allocated so far, by reference, and the module variable
    [Instance] ([None]: undefined or null). *)
Record Process := mkProcess {
  heap : gmap nat Backend;
  nextRef : nat;
  Instance : option nat
}.

Definition start : Process := {| heap := ∅; nextRef := 0; Instance := None |}.

Definition alreadyInitialized : Event :=
  Logged Warn "Thumbnail manager already initialized, we shouldn't be initializing it again".

(** static async Create(db, metadataPath); [usePreciseThumbnails] is the value
    of [Config.usePreciseThumbnails()] at the time of the call.  Returns the
    reference of the new object. *)
Definition Create (usePreciseThumbnails : bool) (db : DatabaseWrapper)
    (metadataPath : string) (p : Process) : nat * Process * list Event :=
  let ev := match Instance p with Some _ => [alreadyInitialized] | None => [] end in
  let obj := if usePreciseThumbnails then FfmpegBackend (Ffmpeg.new db)
             else BifBackend (Bif.new db metadataPath) in
  (nextRef p,
   {| heap := <[nextRef p := obj]> (heap p);
      nextRef := S (nextRef p);
      Instance := Some (nextRef p) |},
   ev).

(** The object [Instance] refers to. *)
Definition active (p : Process) : option Backend :=
  Instance p ≫= fun r => heap p !! r.

(** hasThumbnails(metadataId) on a manager object, by dynamic dispatch. *)
Definition hasThumbnails (metadataId : Z) : Eff (Disk * Backend) bool :=
  fun '(fs, b) =>
    match b with
    | BifBackend m =>
        let '(o, m', ev) := Bif.hasThumbnails fs metadataId m in
        (o, (fs, BifBackend m'), ev)
    | FfmpegBackend m =>
        let '(o, w, ev) := Ffmpeg.hasThumbnails metadataId
                             {| Ffmpeg.fs := fs; Ffmpeg.mgr := m |} in
        (o, (Ffmpeg.fs w, FfmpegBackend (Ffmpeg.mgr w)), ev)
    end.

(** getThumbnail(metadataId, timestamp) on a manager object. *)
Definition getThumbnail (env : Ffmpeg.Env) (metadataId timestamp : Z)
  : Eff (Disk * Backend) (list byte) :=
  fun '(fs, b) =>
    match b with
    | BifBackend m =>
        let '(o, m', ev) := Bif.getThumbnail fs metadataId timestamp m in
        (o, (fs, BifBackend m'), ev)
    | FfmpegBackend m =>
        let '(o, w, ev) := Ffmpeg.getThumbnail env metadataId timestamp
                             {| Ffmpeg.fs := fs; Ffmpeg.mgr := m |} in
        (o, (Ffmpeg.fs w, FfmpegBackend (Ffmpeg.mgr w)), ev)
    end.

(** static Close(fullShutdown): [Instance?.close(fullShutdown); Instance = null].
    The base class's [close] does nothing. *)
Definition Close (env : Ffmpeg.Env) (fullShutdown : bool) (fs : Disk) (p : Process)
  : Disk * Process * list Event :=
  let closed := {| heap := heap p; nextRef := nextRef p; Instance := None |} in
  match Instance p, active p with
  | Some r, Some (FfmpegBackend m) =>
      let '(_, w, ev) := Ffmpeg.close env fullShutdown
                           {| Ffmpeg.fs := fs; Ffmpeg.mgr := m |} in
      (Ffmpeg.fs w, closed, ev)
  | _, _ => (fs, closed, [])
  end.

End ThumbnailManager.

(** ** Auxiliary definitions of the proofs *)

(** A result that resolves with [v] in a state satisfying [P]. *)
Definition resolves {S A} (r : outcome A * S * list Event) (v : A) (P : S -> Prop) : Prop :=
  ∃ s ev, r = (Resolved v, s, ev) ∧ P s.

(** The manager after [thumbCache.interval = iv] for item [id]. *)
Definition withInterval (m : Bif.BifThumbnailManager) (id iv : Z) : Bif.BifThumbnailManager :=
  (Bif.setInterval id iv m).1.2.

(** The world after [mkdirSync] and after the subprocess ran. *)
Definition afterMkdir (env : Ffmpeg.Env) (id : Z) (w : Ffmpeg.World) : Ffmpeg.World :=
  (Ffmpeg.mkdirSync env id w).1.2.
Definition afterExec (env : Ffmpeg.Env) (args : FfmpegArgs) (w : Ffmpeg.World)
  : Ffmpeg.World :=
  (Ffmpeg.execFileSync env args w).1.2.

(** The argument vector of the subprocess run for item [id] at [t]. *)
Definition ffArgs (env : Ffmpeg.Env) (id t : Z) (item : MediaItemCache Ffmpeg.FfmpegLoc)
  : FfmpegArgs :=
  {| arg_ss := t; arg_input := Ffmpeg.filePath (locator item);
     arg_output := Ffmpeg.saveFile env id t |}.

(** ** Concrete inputs *)

Module Examples.

(** The four bytes of a 32-bit integer, little-endian. *)
Definition le32 (z : Z) : list byte :=
  (fun k => default x00 (Byte.of_N (Z.to_N (Z.land (Z.shiftr z (8 * k)) 255))))
    <$> [0; 1; 2; 3].

Fixpoint indexTable (records : list (Z * Z)) : list byte :=
  match records with
  | [] => []
  | (timestamp, offset) :: rest => le32 timestamp ++ le32 offset ++ indexTable rest
  end.

Definition padTo (n : Z) (fill : byte) (l : list byte) : list byte :=
  l ++ replicate (Z.to_nat n - length l) fill.

Definition magic : list byte := [x89; x42; x49; x46; x0d; x0a; x1a; x0a].

(** An index file of 0x3000 bytes: the magic, the thumbnail count at 0xC, the
    index table at 0x40, then bytes aa up to 0x1000, bb up to 0x2000 and cc up
    to the end. *)
Definition bifFile (count : Z) (records : list (Z * Z)) : list byte :=
  padTo 0x3000 xcc
    (padTo 0x2000 xbb
       (padTo 0x1000 xaa
          (padTo 0x40 x00 (padTo 0xC x00 magic ++ le32 count) ++ indexTable records))).

Definition scenarioA : list byte := bifFile 3 [(0, 0x40); (2, 0x1000); (4, 0x2000)].
Definition corrupt : list byte := bifFile 3 [(1, 0x40); (2, 0x1000); (4, 0x2000)].

Definition db : DatabaseWrapper :=
  {| hashQuery := fun id =>
       if id =? 7 then Some [ {| row_id := 1; hash := "abcdef" |} ]
       else if id =? 8 then Some [ {| row_id := 2; hash := "012345" |} ]
       else Some [];
     fileQuery := fun id =>
       if id =? 7 then Some [ {| file := "/media/ep7.mkv"; row_duration := 60000 |} ]
       else Some [] |}.

Definition pathA : string :=
  "/plex/Media/localhost/a/bcdef.bundle/Contents/Indexes/index-sd.bif".
Definition pathCorrupt : string :=
  "/plex/Media/localhost/0/12345.bundle/Contents/Indexes/index-sd.bif".

Definition fileA : File := {| mtimeMs := 1000; contents := scenarioA |}.
Definition fileCorrupt : File := {| mtimeMs := 1000; contents := corrupt |}.

Definition disk : Disk :=
  {| files := {[ pathA := fileA;
                 pathCorrupt := fileCorrupt;
                 "/media/ep7.mkv" := {| mtimeMs := 500; contents := [] |} ]};
     dirs := ∅ |}.

(** A fresh index-backed manager, and the same after the existence check of
    items 7 and 8. *)
Definition bif0 : Bif.BifThumbnailManager := Bif.new db "/plex".
Definition bif7 : Bif.BifThumbnailManager := (Bif.hasThumbnails disk 7 bif0).1.2.
Definition bif8 : Bif.BifThumbnailManager := (Bif.hasThumbnails disk 8 bif0).1.2.
Definition item7 : MediaItemCache Bif.BifLoc := Bif.newItem true pathA.
Definition item8 : MediaItemCache Bif.BifLoc := Bif.newItem true pathCorrupt.

(** A subprocess that writes two bytes of output and is then killed by the
    timeout. *)
Definition partial : File := {| mtimeMs := 2000; contents := [xff; xd8] |}.
Definition stalling : Ffmpeg.Env :=
  {| Ffmpeg.projectRoot := "/app";
     Ffmpeg.ffmpeg := fun _ => {| Ffmpeg.exit := Ffmpeg.TimedOut;
                                  Ffmpeg.written := Some partial |};
     Ffmpeg.rmSyncThrows := false |}.

(** A fresh on-demand manager on [disk], and the same after the existence
    check of item 7. *)
Definition world0 : Ffmpeg.World := {| Ffmpeg.fs := disk; Ffmpeg.mgr := Ffmpeg.new db |}.
Definition world7 : Ffmpeg.World := (Ffmpeg.hasThumbnails 7 world0).1.2.
Definition episode7 : MediaItemCache Ffmpeg.FfmpegLoc :=
  Ffmpeg.newItem true "/media/ep7.mkv" 60000.

(** A cache with one item holding two thumbnails of rank 201. *)
Definition twoThumbs : CacheMap unit :=
  _addItem (newCacheMap 200) 1
    {| hasThumbs := true;
       cachedThumbnails := {[ 5 := {| data := [xaa]; rank := 201 |};
                              6 := {| data := [xbb]; rank := 201 |} ]};
       locator := tt |}.

(** Twenty successful reads of thumbnail (1, 6). *)
Definition twentyReads : list (CacheOp unit) := replicate 20 (OpTryGet 1 6).

End Examples.

(** ** Further definitions: invariants and event classes *)

(** The state a cache is in after any run from a new cache: the tick counter
    is below [#maxTick] and every stored rank is positive and at most
    [#maxCache + 1]. *)
Definition wellFormed {L} (c : CacheMap L) : Prop :=
  0 <= tick c < maxTick
  ∧ ∀ id ts th, thumbAt c id ts = Some th -> 0 < rank th <= maxCache c + 1.

(** The items the managers create: no thumbnail yet. *)
Definition createsEmpty {L} (op : CacheOp L) : Prop :=
  match op with
  | OpAddItem _ it => cachedThumbnails it = ∅
  | _ => True
  end.

(** The rank of a sub-entry after [n] sweeps, and whether it is still there. *)
Definition afterSweeps (n : Z) (th : CachedThumbnail) : option CachedThumbnail :=
  if (0 <? n) && (rank th - maxTick * n <=? 0) then None
  else Some {| data := data th; rank := rank th - maxTick * n |}.

Definition is_log (e : Event) : bool :=
  match e with Logged _ _ => true | _ => false end.

(** The byte range [[start, end)] of frame [index] of an index file, when its
    two offsets are in order and inside the file. *)
Definition frameBounds (data : list byte) (maxIndex index : Z) : option (Z * Z) :=
  match Bif.getOffset data index,
        (if index =? maxIndex then Some (Z.of_nat (length data))
         else Bif.getOffset data (index + 1)) with
  | Some s, Some e =>
      if (0 <=? s) && (s <=? e) && (e <=? Z.of_nat (length data)) then Some (s, e)
      else None
  | _, _ => None
  end.

(** The index [#readThumbnail] uses for the computed index [q]. *)
Definition clamped (maxIndex q : Z) : Z :=
  if maxIndex <? q then maxIndex else if q <? 0 then 0 else q.

(** The events of an existence check: the database query, the [statSync] and
    [existsSync] probes, and log lines. *)
Definition is_check (e : Event) : bool :=
  match e with
  | DbAll _ | StatSync _ | ExistsSync _ | Logged _ _ => true
  | _ => false
  end.

(** The state after a fetch that resolved: the in-memory cache holds the
    buffer under the effective timestamp and the item is as before. *)
Definition holds (id t : Z) (buf : list byte) (item : MediaItemCache Ffmpeg.FfmpegLoc)
    (w : Ffmpeg.World) : Prop :=
  (∃ th, thumbAt (Ffmpeg.cache (Ffmpeg.mgr w)) id t = Some th ∧ data th = buf)
  ∧ ∃ item', getItem (Ffmpeg.cache (Ffmpeg.mgr w)) id = Some item'
             ∧ hasThumbs item' = hasThumbs item ∧ locator item' = locator item.

(** ** Theme: the colours of the current theme (first unit of ThemeColors.js) *)

Module Theme.

(** keyof ThemeColors *)
Inductive ThemeColor := Primary | Green | Red | Orange.

(** static #dict: entry 0 is the dark theme, entry 1 the light one; the
    argument is [#isDark]. *)
Definition dict (isDark : bool) (themeColor : ThemeColor) : string :=
  if isDark then
    match themeColor with
    | Primary => "c1c1c1" | Green => "4C4" | Red => "C44" | Orange => "C94"
    end
  else
    match themeColor with
    | Primary => "212121" | Green => "292" | Red => "A22" | Orange => "A22"
    end.

(** static setDarkTheme(isDark): the new value of [#isDark]. *)
Definition setDarkTheme (isDark : bool) (current : bool) : bool := isDark.

(** static get(themeColor) *)
Definition get (isDark : bool) (themeColor : ThemeColor) : string :=
  dict isDark themeColor.

(** [0-9A-Fa-f] *)
Definition isHexDigit (a : Ascii.ascii) : bool :=
  let n := Ascii.nat_of_ascii a in
  ((48 <=? n) && (n <=? 57) || (65 <=? n) && (n <=? 70) || (97 <=? n) && (n <=? 102))%nat.

(** /^[0-9A-Fa-f]$/.test(opacity) *)
Definition validOpacity (opacity : string) : bool :=
  match opacity with
  | String a EmptyString => isHexDigit a
  | _ => false
  end.

Definition quote : string := String (Ascii.ascii_of_nat 34) EmptyString.

(** static getHex(themeColor, opacity='F'); [None] is the omitted argument. *)
Definition getHex (isDark : bool) (themeColor : ThemeColor) (opacity : option string)
  : string * list Event :=
  let given := default "F" opacity in
  let '(opacity, ev) :=
    if validOpacity given then (given, [])
    else ("F", [Logged Warn ("getHex: invalid opacity " +:+ quote +:+ given +:+ quote
                               +:+ ", defaulting to opaque")]) in
  let color := dict isDark themeColor in
  let opacity := if (3 <? String.length color)%nat then opacity +:+ opacity else opacity in
  ("#" +:+ color +:+ opacity, ev).

(** static getIcon(iconName, themeColor) *)
Definition getIcon (isDark : bool) (iconName : string) (themeColor : ThemeColor) : string :=
  "/i/" +:+ get isDark themeColor +:+ "/" +:+ iconName +:+ ".svg".

Fixpoint allHex (s : string) : bool :=
  match s with
  | EmptyString => true
  | String a rest => isHexDigit a && allHex rest
  end.

End Theme.

(** ** Further concrete inputs *)

Module Fixtures.

(** Item 5 has three versions: two have an index file, the newer under hash
    b222; of its two media files only the shorter one exists. *)
Definition versions : DatabaseWrapper :=
  {| hashQuery := fun id =>
       if id =? 5 then Some [ {| row_id := 1; hash := "a111" |};
                              {| row_id := 2; hash := "b222" |};
                              {| row_id := 3; hash := "c333" |} ]
       else Some [];
     fileQuery := fun id =>
       if id =? 5 then Some [ {| file := "/media/gone.mkv"; row_duration := 90000 |};
                              {| file := "/media/ep5.mkv"; row_duration := 60000 |} ]
       else Some [] |}.

Definition olderPath : string :=
  "/plex/Media/localhost/a/111.bundle/Contents/Indexes/index-sd.bif".
Definition newerPath : string :=
  "/plex/Media/localhost/b/222.bundle/Contents/Indexes/index-sd.bif".

Definition disk5 : Disk :=
  {| files := {[ olderPath := {| mtimeMs := 100; contents := Examples.scenarioA |};
                 newerPath := {| mtimeMs := 300; contents := Examples.scenarioA |};
                 "/media/ep5.mkv" := {| mtimeMs := 50; contents := [] |} ]};
     dirs := ∅ |}.

Definition emptyDisk : Disk := {| files := ∅; dirs := ∅ |}.

(** A subprocess that writes a four-byte frame and exits with code 0. *)
Definition frame : File := {| mtimeMs := 2000; contents := [xff; xd8; xff; xd9] |}.
Definition working : Ffmpeg.Env :=
  {| Ffmpeg.projectRoot := "/app";
     Ffmpeg.ffmpeg := fun _ => {| Ffmpeg.exit := Ffmpeg.Exited 0;
                                  Ffmpeg.written := Some frame |};
     Ffmpeg.rmSyncThrows := false |}.

(** After the first fetch of item 7 at 5000 ms with the working subprocess. *)
Definition fetched : outcome (list byte) * Ffmpeg.World * list Event :=
  Ffmpeg.getThumbnail working 7 5000 Examples.world7.

End Fixtures.

(** * Facts about CacheMap *)

Section CacheFacts.
Context {L : Type}.
Implicit Types (c : CacheMap L) (op : CacheOp L) (ops : list (CacheOp L)).

Lemma touch_tick c : tick (touch c).1 = nextTick (tick c).
Proof. unfold touch, nextTick. by destruct (tick c + 1 =? maxTick). Qed.

Lemma touch_maxCache c : maxCache (touch c).1 = maxCache c.
Proof. unfold touch. by destruct (tick c + 1 =? maxTick). Qed.

Lemma touch_lookup c i :
  cacheMap (touch c).1 !! i =
    (if tick c + 1 =? maxTick then sweepItem <$> cacheMap c !! i else cacheMap c !! i).
Proof.
  unfold touch. destruct (tick c + 1 =? maxTick); simpl; [|done].
  by rewrite lookup_fmap.
Qed.

Lemma touch_thumbAt c i t :
  thumbAt (touch c).1 i t =
    (if tick c + 1 =? maxTick then thumbAt c i t ≫= decay else thumbAt c i t).
Proof.
  unfold thumbAt. rewrite touch_lookup.
  destruct (tick c + 1 =? maxTick); [|done].
  destruct (cacheMap c !! i) as [it|]; simpl; [|done].
  by rewrite lookup_omap.
Qed.

Lemma setThumb_lookup c i t th j :
  cacheMap (setThumb c i t th) !! j =
    (if decide (i = j)
     then (fun it => {| hasThumbs := hasThumbs it;
                        cachedThumbnails := <[t := th]> (cachedThumbnails it);
                        locator := locator it |}) <$> cacheMap c !! j
     else cacheMap c !! j).
Proof.
  unfold setThumb; simpl. destruct (decide (i = j)) as [->|Hne].
  - by rewrite lookup_alter_eq.
  - by rewrite lookup_alter_ne.
Qed.

Lemma setThumb_thumbAt_eq c i t th :
  is_Some (cacheMap c !! i) -> thumbAt (setThumb c i t th) i t = Some th.
Proof.
  intros [it Hit]. unfold thumbAt. rewrite setThumb_lookup, decide_True by done.
  rewrite Hit. simpl. by rewrite lookup_insert_eq.
Qed.

Lemma setThumb_thumbAt_ne c i t th j u :
  ¬ (i = j ∧ t = u) -> thumbAt (setThumb c i t th) j u = thumbAt c j u.
Proof.
  intros Hne. unfold thumbAt. rewrite setThumb_lookup.
  destruct (decide (i = j)) as [->|]; [|done].
  destruct (cacheMap c !! j) as [it|]; simpl; [|done].
  rewrite lookup_insert_ne; [done|]. intros ->. by apply Hne.
Qed.


Lemma add_fst c i t buf :
  (add c i t buf).1 =
    match cacheMap c !! i with
    | None => c
    | Some _ => setThumb (touch c).1 i t {| data := buf; rank := maxCache c + 1 |}
    end.
Proof.
  unfold add. destruct (cacheMap c !! i); [|done].
  rewrite <- (touch_maxCache c). by destruct (touch c).
Qed.

Lemma tryGet_state c i t :
  (tryGet c i t).1.2 =
    match thumbAt c i t with
    | None => c
    | Some th => (touch (setThumb c i t {| data := data th; rank := maxCache c + 1 |})).1
    end.
Proof.
  unfold tryGet, thumbAt. destruct (cacheMap c !! i) as [it|]; simpl; [|done].
  destruct (cachedThumbnails it !! t) as [th|]; [|done].
  by destruct (touch _).
Qed.

Lemma tryGet_result c i t : (tryGet c i t).1.1 = data <$> thumbAt c i t.
Proof.
  unfold tryGet, thumbAt. destruct (cacheMap c !! i) as [it|]; simpl; [|done].
  destruct (cachedThumbnails it !! t) as [th|]; [|done].
  by destruct (touch _).
Qed.

Lemma thumbAt_item c i t th : thumbAt c i t = Some th -> is_Some (cacheMap c !! i).
Proof. unfold thumbAt. destruct (cacheMap c !! i); [eauto|done]. Qed.

Lemma step_tick c op :
  tick (step c op) = if touches c op then nextTick (tick c) else tick c.
Proof.
  destruct op as [i t b|i t| |i|i it]; simpl; try done.
  - rewrite add_fst. destruct (cacheMap c !! i) as [it|] eqn:E.
    + rewrite bool_decide_eq_true_2 by eauto. simpl. apply touch_tick.
    + rewrite bool_decide_eq_false_2; [done|]. by intros [? ?].
  - rewrite tryGet_state. destruct (thumbAt c i t) as [th|] eqn:E.
    + rewrite bool_decide_eq_true_2 by eauto. by rewrite touch_tick.
    + rewrite bool_decide_eq_false_2; [done|]. by intros [? ?].
  - apply touch_tick.
Qed.

Lemma step_thumbAt c op i t :
  avoids i t op ->
  thumbAt (step c op) i t =
    (if touches c op && (tick c + 1 =? maxTick)
     then thumbAt c i t ≫= decay else thumbAt c i t).
Proof.
  destruct op as [j u b|j u| |j|j it]; simpl; intros Hav.
  - rewrite add_fst. destruct (cacheMap c !! j) as [it|] eqn:E.
    + rewrite bool_decide_eq_true_2 by eauto. simpl.
      rewrite setThumb_thumbAt_ne by done. apply touch_thumbAt.
    + rewrite bool_decide_eq_false_2; [done|]. by intros [? ?].
  - rewrite tryGet_state. destruct (thumbAt c j u) as [th|] eqn:E.
    + rewrite bool_decide_eq_true_2 by eauto. simpl.
      rewrite touch_thumbAt. simpl. by rewrite setThumb_thumbAt_ne.
    + rewrite bool_decide_eq_false_2; [done|]. by intros [? ?].
  - apply touch_thumbAt.
  - done.
  - unfold thumbAt, _addItem; simpl. by rewrite lookup_insert_ne.
Qed.

Lemma touchCount_nonneg c ops : 0 <= touchCount c ops.
Proof.
  revert c; induction ops as [|op ops IH]; intros c; simpl; [lia|].
  specialize (IH (step c op)). destruct (touches c op); lia.
Qed.

Lemma run_thumbAt c ops i t :
  0 <= tick c < maxTick ->
  Forall (avoids i t) ops ->
  thumbAt (run c ops) i t
    = decayN (Z.to_nat ((tick c + touchCount c ops) / maxTick)) (thumbAt c i t)
  ∧ tick (run c ops) = (tick c + touchCount c ops) mod maxTick.
Proof.
  revert c. induction ops as [|op ops IH]; intros c Htick Hav; simpl.
  - rewrite Z.add_0_r, Z.div_small, Z.mod_small by done. done.
  - inversion Hav as [|? ? Hop Hops]; subst.
    pose proof (touchCount_nonneg (step c op) ops) as Hk.
    pose proof (step_tick c op) as Ht.
    pose proof (step_thumbAt c op i t Hop) as Hth.
    unfold nextTick, maxTick in *.
    destruct (touches c op); simpl in *.
    + destruct (Z.eqb_spec (tick c + 1) 20) as [E|E].
      * destruct (IH (step c op)) as [IH1 IH2]; [lia|done|].
        rewrite IH1, IH2, Ht, Hth.
        replace (tick c + (1 + touchCount (step c op) ops))
          with (touchCount (step c op) ops + 1 * 20) by lia.
        rewrite Z.div_add, Z_mod_plus_full by lia.
        rewrite Z.add_0_l. split; [|done].
        rewrite Z2Nat.inj_add by (try apply Z.div_pos; lia).
        by rewrite Nat.add_comm.
      * destruct (IH (step c op)) as [IH1 IH2]; [lia|done|].
        rewrite IH1, IH2, Ht, Hth.
        by replace (tick c + 1 + touchCount (step c op) ops)
          with (tick c + (1 + touchCount (step c op) ops)) by lia.
    + destruct (IH (step c op)) as [IH1 IH2]; [lia|done|].
      rewrite IH1, IH2, Ht, Hth. by rewrite Z.add_0_l.
Qed.


(** The range of the tick counter is an invariant: it holds of a new cache
    and every operation keeps it. *)
Lemma newCacheMap_tick (mc : Z) : 0 <= tick (newCacheMap (L:=L) mc) < maxTick.
Proof. unfold maxTick. simpl. lia. Qed.

Lemma step_tick_range c op :
  0 <= tick c < maxTick -> 0 <= tick (step c op) < maxTick.
Proof.
  intros H. rewrite step_tick. unfold nextTick, maxTick in *.
  destruct (touches c op); [|done].
  destruct (Z.eqb_spec (tick c + 1) 20); lia.
Qed.

Lemma run_tick_range c ops :
  0 <= tick c < maxTick -> 0 <= tick (run c ops) < maxTick.
Proof.
  revert c. induction ops as [|op ops IH]; intros c H; simpl; [done|].
  by apply IH, step_tick_range.
Qed.

Lemma step_item c op i it :
  cacheMap c !! i = Some it ->
  ∃ it', cacheMap (step c op) !! i = Some it'
         ∧ (¬ replaces i op ->
            hasThumbs it' = hasThumbs it ∧ locator it' = locator it).
Proof.
  intros Hit. destruct op as [j u b|j u| |j|j new]; simpl.
  - rewrite add_fst. destruct (cacheMap c !! j) eqn:E; [|eauto].
    rewrite setThumb_lookup, touch_lookup, Hit.
    destruct (decide (j = i)), (tick c + 1 =? maxTick); simpl; eauto.
  - rewrite tryGet_state. destruct (thumbAt c j u) eqn:E; [|eauto].
    rewrite touch_lookup, setThumb_lookup, Hit. simpl.
    destruct (decide (j = i)), (tick c + 1 =? maxTick); simpl; eauto.
  - rewrite touch_lookup, Hit.
    destruct (tick c + 1 =? maxTick); simpl; eauto.
  - eauto.
  - rewrite lookup_insert. destruct (decide (j = i)) as [->|]; simpl.
    + exists new. split; [done|]. intros H. by destruct H.
    + eauto.
Qed.

End CacheFacts.

(** * Facts about the effect monad *)

Section EffFacts.
Context {S A B : Type}.
Implicit Types (k : A -> Eff S B) (s : S).

Lemma prepend_nil (r : outcome A * S * list Event) : prepend [] r = r.
Proof. by destruct r as [[? ?] ?]. Qed.

Lemma prepend_prepend ev1 ev2 (r : outcome A * S * list Event) :
  prepend ev1 (prepend ev2 r) = prepend (ev1 ++ ev2) r.
Proof. destruct r as [[? ?] ?]; simpl. by rewrite app_assoc. Qed.

Lemma prepend_fst ev (r : outcome A * S * list Event) : (prepend ev r).1 = r.1.
Proof. by destruct r as [[? ?] ?]. Qed.

Lemma bind_ret a k s : bind (ret a) k s = k a s.
Proof. unfold bind, ret. by destruct (k a s) as [[? ?] ?]. Qed.

Lemma bind_some a k s : bind (orCrash (Some a)) k s = k a s.
Proof. apply bind_ret. Qed.

Lemma bind_none k s : bind (orCrash None) k s = (Uncaught RangeError, s, []).
Proof. done. Qed.

Lemma bind_throw e k s : bind (throw e) k s = (Rejected e, s, []).
Proof. done. Qed.

Lemma bind_crash e k s : bind (crash e) k s = (Uncaught e, s, []).
Proof. done. Qed.

Lemma bind_resolved (m : Eff S A) k s a s1 ev1 :
  m s = (Resolved a, s1, ev1) -> bind m k s = prepend ev1 (k a s1).
Proof. intros H. unfold bind. by rewrite H. Qed.

Lemma bind_fst (m : Eff S A) k s :
  (bind m k s).1 =
    match (m s).1 with
    | (Resolved a, s1) => (k a s1).1
    | (Rejected e, s1) => (Rejected e, s1)
    | (Uncaught e, s1) => (Uncaught e, s1)
    end.
Proof.
  unfold bind. destruct (m s) as [[[a|e|e] s1] ev1]; simpl; try done.
  by destruct (k a s1) as [[? ?] ?].
Qed.

End EffFacts.

Lemma bind_emit {S B} e (k : unit -> Eff S B) s :
  bind (emit e) k s = prepend [e] (k tt s).
Proof. done. Qed.

Lemma resolves_prepend {S A} ev (r : outcome A * S * list Event) v P :
  resolves r v P -> resolves (prepend ev r) v P.
Proof. intros (s & ev' & -> & HP). by exists s, (ev ++ ev'). Qed.

(** One step of a monadic computation whose first action is known. *)
Ltac eff_step :=
  first [ rewrite bind_some | rewrite bind_ret | rewrite bind_emit ]; cbv beta.

(** * The index-backed source *)

Lemma allocCopy_in_range buf lo hi :
  0 <= lo <= hi -> hi <= Z.of_nat (length buf) ->
  allocCopy buf lo hi = Some (byteRange buf lo hi).
Proof.
  intros Hlo Hhi. unfold allocCopy, byteRange.
  destruct (Z.ltb_spec (hi - lo) 0); [lia|].
  destruct (Z.ltb_spec lo 0); [lia|].
  destruct (Z.ltb_spec hi 0); [lia|]. simpl.
  destruct (Z.eqb_spec (hi - lo) 0) as [->|]; [done|].
  destruct (Z.ltb_spec (Z.of_nat (length buf)) lo); [lia|].
  f_equal. apply take_app_le. rewrite length_drop. lia.
Qed.

Lemma bif_getThumbnail_via fs id ts m b m1 ev1 :
  Bif.hasThumbnails fs id m = (Resolved b, m1, ev1) ->
  Bif.getThumbnail fs id ts m = prepend ev1 (Bif.getThumbnailCore fs id (ts / 1000) m1).
Proof.
  intros H. unfold Bif.getThumbnail.
  destruct (getItem (Bif.cache m) id) as [cached|] eqn:E.
  - unfold Bif.hasThumbnails in H. rewrite E in H.
    injection H as _ <- <-. by rewrite prepend_nil.
  - by rewrite (bind_resolved _ _ _ _ _ _ H).
Qed.

Lemma bif_readThumbnail_file fs id ts m item f :
  getItem (Bif.cache m) id = Some item ->
  files fs !! Bif.bifPath (locator item) = Some f ->
  Bif.readThumbnail fs id ts m =
    prepend [ReadFile (Bif.bifPath (locator item))]
            (Bif.readCallback (contents f) id ts m).
Proof.
  intros Hit Hf. unfold Bif.readThumbnail. rewrite Hit, bind_emit. by rewrite Hf.
Qed.

Lemma bif_core_first fs id ts m item :
  getItem (Bif.cache m) id = Some item ->
  hasThumbs item = true ->
  Bif.interval (locator item) = 0 ->
  Bif.getThumbnailCore fs id ts m = Bif.readThumbnail fs id ts m.
Proof.
  intros Hit Hhas Hiv. unfold Bif.getThumbnailCore. by rewrite Hit, Hhas, Hiv.
Qed.


Lemma discoverInterval_first data id m item iv :
  getItem (Bif.cache m) id = Some item ->
  Bif.interval (locator item) = 0 ->
  Bif.getTimestamp data 0 = Some 0 ->
  Bif.getTimestamp data 1 = Some iv ->
  Bif.discoverInterval data id m = (Resolved iv, withInterval m id iv, []).
Proof.
  intros Hit Hiv H0 H1. unfold Bif.discoverInterval.
  rewrite Hit, Hiv, H0. simpl. eff_step. simpl. rewrite H1. by repeat eff_step.

Qed.

Lemma discoverInterval_corrupt data id m item v :
  getItem (Bif.cache m) id = Some item ->
  Bif.interval (locator item) = 0 ->
  Bif.getTimestamp data 0 = Some v ->
  v ≠ 0 ->
  Bif.discoverInterval data id m =
    (Rejected (RejectReason "Unexpected thumbnail file contents"), m, []).
Proof.
  intros Hit Hiv H0 Hv. unfold Bif.discoverInterval.
  rewrite Hit, Hiv, H0. eff_step. simpl.
  by destruct (Z.eqb_spec v 0).
Qed.

Lemma withInterval_item m id iv item :
  getItem (Bif.cache m) id = Some item ->
  getItem (Bif.cache (withInterval m id iv)) id
    = Some {| hasThumbs := hasThumbs item;
              cachedThumbnails := cachedThumbnails item;
              locator := {| Bif.bifPath := Bif.bifPath (locator item);
                            Bif.interval := iv |} |}.
Proof.
  intros Hit. unfold withInterval, getItem in *. simpl.
  by rewrite lookup_alter_eq, Hit.
Qed.

Lemma withInterval_maxCache m id iv :
  maxCache (Bif.cache (withInterval m id iv)) = maxCache (Bif.cache m).
Proof. done. Qed.

Lemma frameSpan_eq {S} data i maxIndex (st : S) s e :
  Bif.getOffset data i = Some s ->
  (if i =? maxIndex then Some (Z.of_nat (length data))
   else Bif.getOffset data (i + 1)) = Some e ->
  Bif.frameSpan data i maxIndex st = (Resolved (s, e), st, []).
Proof.
  intros Hs He. unfold Bif.frameSpan. rewrite Hs. eff_step.
  destruct (i =? maxIndex).
  - injection He as <-. by repeat eff_step.
  - rewrite He. by repeat eff_step.
Qed.

Lemma bif_cacheAdd_item id i buf m :
  is_Some (getItem (Bif.cache m) id) ->
  ∃ m2 ev,
    Bif.cacheAdd id i buf m = (Resolved tt, m2, ev)
    ∧ thumbAt (Bif.cache m2) id i
      = Some {| data := buf; rank := maxCache (Bif.cache m) + 1 |}
    ∧ locator <$> getItem (Bif.cache m2) id = locator <$> getItem (Bif.cache m) id.
Proof.
  intros [it Hit]. unfold Bif.cacheAdd.
  pose proof (add_fst (Bif.cache m) id i buf) as Hadd.
  destruct (add (Bif.cache m) id i buf) as [c2 ev]. simpl in Hadd.
  unfold getItem in *. rewrite Hit in Hadd. subst c2.
  eexists _, _. split; [reflexivity|]. cbn [Bif.cache Bif.setCache]. split.
  - apply setThumb_thumbAt_eq. rewrite touch_lookup, Hit.
    destruct (_ =? _); simpl; eauto.
  - rewrite setThumb_lookup, decide_True, touch_lookup, Hit by done.
    by destruct (_ =? _).
Qed.

Lemma extractFrame_ok data id i maxIndex m s e :
  is_Some (getItem (Bif.cache m) id) ->
  Bif.getOffset data i = Some s ->
  (if i =? maxIndex then Some (Z.of_nat (length data))
   else Bif.getOffset data (i + 1)) = Some e ->
  0 <= s <= e -> e <= Z.of_nat (length data) ->
  resolves (Bif.extractFrame data id (Fin i) maxIndex m) (byteRange data s e)
    (fun m2 =>
       thumbAt (Bif.cache m2) id i
         = Some {| data := byteRange data s e; rank := maxCache (Bif.cache m) + 1 |}
       ∧ locator <$> getItem (Bif.cache m2) id = locator <$> getItem (Bif.cache m) id).
Proof.
  intros Hit Hs He Hse Hlen. unfold Bif.extractFrame.
  rewrite (bind_resolved _ _ _ _ _ _ (frameSpan_eq data i maxIndex m s e Hs He)).
  cbv beta. simpl fst. simpl snd. rewrite prepend_nil.
  rewrite allocCopy_in_range by done. repeat eff_step.
  apply resolves_prepend.
  destruct (bif_cacheAdd_item id i (byteRange data s e) m Hit) as (m2 & ev & Hadd & H1 & H2).
  rewrite (bind_resolved _ _ _ _ _ _ Hadd). cbv beta.
  apply resolves_prepend. by exists m2, [].
Qed.

Lemma readCallback_parsed data id ts m iv m1 ev0 count :
  Bif.discoverInterval data id m = (Resolved iv, m1, ev0) ->
  readInt32LE data Bif.thumbnailCountOffset = Some count ->
  Bif.readCallback data id ts m =
    prepend ev0
      (bind (Bif.clampIndex (floorDiv ts iv) (count - 1))
            (fun index => Bif.extractFrame data id index (count - 1)) m1).
Proof.
  intros Hd Hc. unfold Bif.readCallback.
  rewrite (bind_resolved _ _ _ _ _ _ Hd). cbv beta. rewrite Hc. by eff_step.
Qed.

Lemma clampIndex_fst {S} index maxIndex (st : S) :
  (Bif.clampIndex index maxIndex st).1 =
    (Resolved (if js_gt index maxIndex then Fin maxIndex
               else if js_lt index 0 then Fin 0 else index), st).
Proof.
  unfold Bif.clampIndex. by destruct (js_gt index maxIndex), (js_lt index 0).
Qed.

Lemma discoverInterval_item data id m iv m1 ev0 :
  Bif.discoverInterval data id m = (Resolved iv, m1, ev0) ->
  is_Some (getItem (Bif.cache m1) id).
Proof.
  unfold Bif.discoverInterval.
  destruct (getItem (Bif.cache m) id) as [it|] eqn:Hit; [|done].
  destruct (Bif.interval (locator it) =? 0).
  - destruct (Bif.getTimestamp data 0) as [v|]; [|done]. eff_step.
    destruct (v =? 0); [|done].
    destruct (Bif.getTimestamp data 1) as [w|]; [|done]. repeat eff_step.
    intros H. injection H as _ <- _.
    eexists. exact (withInterval_item m id w it Hit).
  - intros H. injection H as _ <- _. rewrite Hit. eauto.
Qed.

Lemma readCallback_same_index data id m iv m1 ev0 count t t' :
  Bif.discoverInterval data id m = (Resolved iv, m1, ev0) ->
  readInt32LE data Bif.thumbnailCountOffset = Some count ->
  (Bif.clampIndex (floorDiv t iv) (count - 1) m1).1
    = (Bif.clampIndex (floorDiv t' iv) (count - 1) m1).1 ->
  (Bif.readCallback data id t m).1 = (Bif.readCallback data id t' m).1.
Proof.
  intros Hd Hc Hsame.
  rewrite !(readCallback_parsed _ _ _ _ _ _ _ _ Hd Hc), !prepend_fst, !bind_fst.
  by rewrite Hsame.
Qed.

Lemma readCallback_clamped data id m iv m1 ev0 count t i s e :
  Bif.discoverInterval data id m = (Resolved iv, m1, ev0) ->
  readInt32LE data Bif.thumbnailCountOffset = Some count ->
  (Bif.clampIndex (floorDiv t iv) (count - 1) m1).1 = (Resolved (Fin i), m1) ->
  Bif.getOffset data i = Some s ->
  (if i =? count - 1 then Some (Z.of_nat (length data))
   else Bif.getOffset data (i + 1)) = Some e ->
  0 <= s <= e -> e <= Z.of_nat (length data) ->
  (Bif.readCallback data id t m).1.1 = Resolved (byteRange data s e).
Proof.
  intros Hd Hc Hcl Hs He Hse Hlen.
  rewrite (readCallback_parsed _ _ _ _ _ _ _ _ Hd Hc), prepend_fst, bind_fst, Hcl.
  destruct (extractFrame_ok data id i (count - 1) m1 s e) as (m2 & ev & -> & _); try done.
  by eapply discoverInterval_item.
Qed.


Lemma countDb_app ev1 ev2 : countDb (ev1 ++ ev2) = (countDb ev1 + countDb ev2)%nat.
Proof. unfold countDb. by rewrite List.filter_app, length_app. Qed.

Lemma scanRows_spec {S} fs mp rows newest (st : S) :
  ∃ o ev, Bif.scanRows fs mp rows newest st = (o, st, ev) ∧ countDb ev = 0%nat.
Proof.
  revert newest. induction rows as [|row rows IH]; intros newest; simpl.
  - by exists (Resolved newest), [].
  - destruct (Bif.bifPathOf mp (hash row)) as [p|]; [|by exists (Rejected TypeError), []].
    rewrite bind_emit.
    match goal with |- context [Bif.scanRows fs mp rows ?n st] =>
      destruct (IH n) as (o & ev & -> & Hev) end.
    by exists o, (StatSync p :: ev).
Qed.

Lemma bif_hasThumbnails_spec fs id m b m1 ev1 :
  Bif.hasThumbnails fs id m = (Resolved b, m1, ev1) ->
  (∃ item, getItem (Bif.cache m1) id = Some item ∧ hasThumbs item = b)
  ∧ (countDb ev1 <= 1)%nat.
Proof.
  unfold Bif.hasThumbnails.
  destruct (getItem (Bif.cache m) id) as [cached|] eqn:E.
  - intros H. injection H as <- <- <-. split; [eauto|]. unfold countDb; simpl; lia.
  - unfold Bif.dbAll, bind at 1.
    destruct (hashQuery (Bif.database m) id) as [rows|]; [|done].
    unfold bind at 1.
    destruct (scanRows_spec fs (Bif.metadataPath m) rows Bif.newest0 m)
      as (o & ev & -> & Hev).
    destruct o as [newest|e|e]; [|done|done].
    destruct (decide (Bif.n_path newest ≠ "")); repeat eff_step;
      unfold Bif.cacheAddItem, bind, ret, prepend;
      intros H; injection H as <- <- <-;
      (split;
       [ eexists; split; [apply lookup_insert_eq|done]
       | change (DbAll id :: ev ++ ?l) with ([DbAll id] ++ ev ++ l);
         rewrite !countDb_app, Hev; unfold countDb; simpl; lia ]).
Qed.

Lemma bif_hasThumbnails_cached fs id m item :
  getItem (Bif.cache m) id = Some item ->
  Bif.hasThumbnails fs id m = (Resolved (hasThumbs item), m, []).
Proof. intros H. unfold Bif.hasThumbnails. by rewrite H. Qed.



(** * The on-demand source *)

Lemma execArgs_app ev1 ev2 : execArgs (ev1 ++ ev2) = execArgs ev1 ++ execArgs ev2.
Proof. apply omap_app. Qed.

Lemma tryGet_miss {L} (c : CacheMap L) i t :
  thumbAt c i t = None -> tryGet c i t = (None, c, []).
Proof.
  unfold thumbAt, tryGet. destruct (cacheMap c !! i) as [it|]; simpl; [|done].
  by intros ->.
Qed.

Lemma tryGet_hit {L} (c : CacheMap L) i t th :
  thumbAt c i t = Some th ->
  ∃ c' ev, tryGet c i t = (Some (data th), c', ev) ∧ execArgs ev = [].
Proof.
  unfold thumbAt, tryGet. destruct (cacheMap c !! i) as [it|]; simpl; [|done].
  intros ->. unfold touch. destruct (Z.eqb _ _); eauto.
Qed.

Lemma add_events {L} (c : CacheMap L) i t buf :
  execArgs (add c i t buf).2 = [] ∧ countDb (add c i t buf).2 = 0%nat.
Proof.
  unfold add. destruct (cacheMap c !! i); [|done].
  unfold touch. by destruct (_ =? _).
Qed.

Lemma ff_getThumbnail_via env id ts w b w1 ev1 :
  Ffmpeg.hasThumbnails id w = (Resolved b, w1, ev1) ->
  Ffmpeg.getThumbnail env id ts w = prepend ev1 (Ffmpeg.getThumbnailCore env id ts w1).
Proof.
  intros H. unfold Ffmpeg.getThumbnail.
  destruct (getItem (Ffmpeg.cache (Ffmpeg.mgr w)) id) as [cached|] eqn:E.
  - unfold Ffmpeg.hasThumbnails in H. rewrite E in H.
    injection H as _ <- <-. by rewrite prepend_nil.
  - by rewrite (bind_resolved _ _ _ _ _ _ H).
Qed.

Lemma ff_getThumbnail_cached env id ts w item :
  getItem (Ffmpeg.cache (Ffmpeg.mgr w)) id = Some item ->
  Ffmpeg.getThumbnail env id ts w = Ffmpeg.getThumbnailCore env id ts w.
Proof. intros H. unfold Ffmpeg.getThumbnail. by rewrite H. Qed.

Lemma findFile_spec rows w :
  ∃ o ev, Ffmpeg.findFile rows w = (Resolved o, w, ev) ∧ countDb ev = 0%nat.
Proof.
  induction rows as [|row rows IH]; simpl.
  - by exists None, [].
  - rewrite bind_emit. destruct (existsSync (Ffmpeg.fs w) (file row)).
    + by exists (Some row), [ExistsSync (file row)].
    + destruct IH as (o & ev & -> & Hev). by exists o, (ExistsSync (file row) :: ev).
Qed.

Lemma ff_hasThumbnails_spec id w b w1 ev1 :
  Ffmpeg.hasThumbnails id w = (Resolved b, w1, ev1) ->
  (∃ item, getItem (Ffmpeg.cache (Ffmpeg.mgr w1)) id = Some item ∧ hasThumbs item = b)
  ∧ Ffmpeg.fs w1 = Ffmpeg.fs w
  ∧ (countDb ev1 <= 1)%nat.
Proof.
  unfold Ffmpeg.hasThumbnails.
  destruct (getItem (Ffmpeg.cache (Ffmpeg.mgr w)) id) as [cached|] eqn:E.
  - intros H. injection H as <- <- <-. repeat split; [eauto|]. unfold countDb; simpl; lia.
  - unfold Ffmpeg.dbAll, bind at 1.
    destruct (fileQuery (Ffmpeg.database (Ffmpeg.mgr w)) id) as [rows|]; [|done].
    unfold bind at 1.
    destruct (findFile_spec rows w) as (o & ev & -> & Hev).
    destruct o as [row|]; repeat eff_step;
      unfold Ffmpeg.cacheAddItem, bind, ret, prepend;
      intros H; injection H as <- <- <-;
      (repeat split;
       [ eexists; split; [apply lookup_insert_eq|done]
       | change (DbAll id :: ev ++ ?l) with ([DbAll id] ++ ev ++ l);
         rewrite !countDb_app, Hev; unfold countDb; simpl; lia ]).
Qed.

Lemma ff_hasThumbnails_cached id w item :
  getItem (Ffmpeg.cache (Ffmpeg.mgr w)) id = Some item ->
  Ffmpeg.hasThumbnails id w = (Resolved (hasThumbs item), w, []).
Proof. intros H. unfold Ffmpeg.hasThumbnails. by rewrite H. Qed.

Lemma ff_core_unfold env id ts w item :
  getItem (Ffmpeg.cache (Ffmpeg.mgr w)) id = Some item ->
  hasThumbs item = true ->
  Ffmpeg.getThumbnailCore env id ts w =
    bind (Ffmpeg.cacheTryGet id (Ffmpeg.effectiveTimestamp (Ffmpeg.duration (locator item)) ts))
      (fun cachedThumb =>
         match cachedThumb with
         | Some cachedThumb =>
             bind (emit (Logged Tmi ("Found cached thumbnail for " +:+ pretty id +:+ ":"
               +:+ pretty (Ffmpeg.effectiveTimestamp (Ffmpeg.duration (locator item)) ts))))
               (fun _ => ret cachedThumb)
         | None =>
             Ffmpeg.fileCacheOrGenerate env id
               (Ffmpeg.effectiveTimestamp (Ffmpeg.duration (locator item)) ts)
         end) w.
Proof. intros Hit Hhas. unfold Ffmpeg.getThumbnailCore. by rewrite Hit, Hhas. Qed.

Lemma ff_core_hit env id ts w item th :
  getItem (Ffmpeg.cache (Ffmpeg.mgr w)) id = Some item ->
  hasThumbs item = true ->
  cachedThumbnails item
    !! Ffmpeg.effectiveTimestamp (Ffmpeg.duration (locator item)) ts = Some th ->
  (Ffmpeg.getThumbnailCore env id ts w).1.1 = Resolved (data th)
  ∧ execArgs (Ffmpeg.getThumbnailCore env id ts w).2 = [].
Proof.
  intros Hit Hhas Hth. rewrite (ff_core_unfold _ _ _ _ _ Hit Hhas).
  set (t := Ffmpeg.effectiveTimestamp _ _) in *.
  assert (Hat : thumbAt (Ffmpeg.cache (Ffmpeg.mgr w)) id t = Some th).
  { unfold thumbAt. unfold getItem in Hit. by rewrite Hit. }
  destruct (tryGet_hit _ _ _ _ Hat) as (c' & ev & Htg & Hev).
  assert (Hc : Ffmpeg.cacheTryGet id t w
               = (Resolved (Some (data th)), Ffmpeg.setCache w c', ev)).
  { unfold Ffmpeg.cacheTryGet. by rewrite Htg. }
  rewrite (bind_resolved _ _ _ _ _ _ Hc). cbv beta. eff_step. simpl.
  by rewrite execArgs_app, Hev.
Qed.

Lemma ff_core_miss env id ts w item :
  getItem (Ffmpeg.cache (Ffmpeg.mgr w)) id = Some item ->
  hasThumbs item = true ->
  cachedThumbnails item
    !! Ffmpeg.effectiveTimestamp (Ffmpeg.duration (locator item)) ts = None ->
  Ffmpeg.getThumbnailCore env id ts w =
    Ffmpeg.fileCacheOrGenerate env id
      (Ffmpeg.effectiveTimestamp (Ffmpeg.duration (locator item)) ts) w.
Proof.
  intros Hit Hhas Hth. rewrite (ff_core_unfold _ _ _ _ _ Hit Hhas).
  set (t := Ffmpeg.effectiveTimestamp _ _) in *.
  unfold bind at 1, Ffmpeg.cacheTryGet.
  rewrite tryGet_miss.
  2:{ unfold thumbAt. unfold getItem in Hit. by rewrite Hit. }
  destruct w as [fs [db c]]. unfold Ffmpeg.setCache. simpl.
  by destruct (Ffmpeg.fileCacheOrGenerate env id t _) as [[? ?] ?].
Qed.


Lemma mkdirSync_eq env id w :
  Ffmpeg.mkdirSync env id w
    = (Resolved tt, afterMkdir env id w, [MkdirSync (Ffmpeg.savePath env id)]).
Proof. done. Qed.

Lemma afterMkdir_mgr env id w : Ffmpeg.mgr (afterMkdir env id w) = Ffmpeg.mgr w.
Proof. done. Qed.

Lemma afterMkdir_files env id w :
  files (Ffmpeg.fs (afterMkdir env id w)) = files (Ffmpeg.fs w).
Proof. done. Qed.

Lemma execFileSync_eq env args w :
  Ffmpeg.execFileSync env args w
    = (match Ffmpeg.exit (Ffmpeg.ffmpeg env args) with
       | Ffmpeg.Exited 0 => Resolved tt
       | _ => Rejected (SubprocessFailure (Ffmpeg.timedOut (Ffmpeg.ffmpeg env args)))
       end,
       afterExec env args w, [ExecFfmpeg args]).
Proof.
  unfold afterExec, Ffmpeg.execFileSync. rewrite bind_emit.
  by destruct (Ffmpeg.exit (Ffmpeg.ffmpeg env args)) as [[|?|?]|].
Qed.

Lemma afterExec_mgr env args w : Ffmpeg.mgr (afterExec env args w) = Ffmpeg.mgr w.
Proof.
  unfold afterExec, Ffmpeg.execFileSync. rewrite bind_emit.
  by destruct (Ffmpeg.exit (Ffmpeg.ffmpeg env args)) as [[|?|?]|],
              (Ffmpeg.written (Ffmpeg.ffmpeg env args)).
Qed.

Lemma afterExec_files env args w :
  files (Ffmpeg.fs (afterExec env args w))
    = match Ffmpeg.written (Ffmpeg.ffmpeg env args) with
      | Some f => <[arg_output args := f]> (files (Ffmpeg.fs w))
      | None => files (Ffmpeg.fs w)
      end.
Proof.
  unfold afterExec, Ffmpeg.execFileSync. rewrite bind_emit.
  by destruct (Ffmpeg.exit (Ffmpeg.ffmpeg env args)) as [[|?|?]|],
              (Ffmpeg.written (Ffmpeg.ffmpeg env args)).
Qed.


Lemma ff_generate_unfold env id t w item :
  getItem (Ffmpeg.cache (Ffmpeg.mgr w)) id = Some item ->
  existsSync (Ffmpeg.fs w) (Ffmpeg.saveFile env id t) = false ->
  Ffmpeg.fileCacheOrGenerate env id t w =
    prepend [ExistsSync (Ffmpeg.saveFile env id t); MkdirSync (Ffmpeg.savePath env id)]
      (bind (Ffmpeg.execFileSync env (ffArgs env id t item))
         (fun _ =>
            bind (Ffmpeg.readFileSync (Ffmpeg.saveFile env id t)) (fun data =>
            bind (Ffmpeg.cacheAdd id t data) (fun _ =>
            bind (emit (Logged Tmi ("Generated thumbnail " +:+ pretty id
                                      +:+ ":" +:+ pretty t))) (fun _ =>
            ret data))))
         (afterMkdir env id w)).
Proof.
  intros Hit Hex. unfold Ffmpeg.fileCacheOrGenerate.
  rewrite bind_emit, Hex.
  rewrite (bind_resolved _ _ _ _ _ _ (mkdirSync_eq env id w)). cbv beta.
  rewrite afterMkdir_mgr, Hit, prepend_prepend. done.
Qed.

Lemma readFileSync_eq path w :
  Ffmpeg.readFileSync path w =
    (match files (Ffmpeg.fs w) !! path with
     | Some f => Resolved (contents f)
     | None => Rejected (ENOENT path)
     end, w, [ReadFile path]).
Proof.
  unfold Ffmpeg.readFileSync. rewrite bind_emit.
  by destruct (files (Ffmpeg.fs w) !! path).
Qed.

Lemma ff_cacheAdd_eq id t buf w :
  ∃ w' ev, Ffmpeg.cacheAdd id t buf w = (Resolved tt, w', ev) ∧ execArgs ev = [].
Proof.
  unfold Ffmpeg.cacheAdd.
  pose proof (add_events (Ffmpeg.cache (Ffmpeg.mgr w)) id t buf) as [H _].
  destruct (add _ _ _ _) as [c ev]. eauto.
Qed.

Lemma ff_generate_execs env id t w item :
  getItem (Ffmpeg.cache (Ffmpeg.mgr w)) id = Some item ->
  existsSync (Ffmpeg.fs w) (Ffmpeg.saveFile env id t) = false ->
  execArgs (Ffmpeg.fileCacheOrGenerate env id t w).2 = [ffArgs env id t item].
Proof.
  intros Hit Hex. rewrite (ff_generate_unfold _ _ _ _ _ Hit Hex).
  pose proof (execFileSync_eq env (ffArgs env id t item) (afterMkdir env id w)) as He.
  destruct (Ffmpeg.exit (Ffmpeg.ffmpeg env (ffArgs env id t item))) as [[|?|?]|];
    try (unfold bind at 1; by rewrite He).
  rewrite (bind_resolved _ _ _ _ _ _ He). cbv beta.
  pose proof (readFileSync_eq (Ffmpeg.saveFile env id t)
                (afterExec env (ffArgs env id t item) (afterMkdir env id w))) as Hr.
  destruct (files _ !! _) as [f|].
  - rewrite (bind_resolved _ _ _ _ _ _ Hr). cbv beta.
    destruct (ff_cacheAdd_eq id t (contents f)
                (afterExec env (ffArgs env id t item) (afterMkdir env id w)))
      as (w' & ev & Ha & Hev).
    rewrite (bind_resolved _ _ _ _ _ _ Ha). cbv beta. repeat eff_step.
    simpl. by rewrite execArgs_app, Hev.
  - unfold bind at 1. by rewrite Hr.
Qed.

Lemma ff_disk_hit env id t w f :
  files (Ffmpeg.fs w) !! Ffmpeg.saveFile env id t = Some f ->
  (Ffmpeg.fileCacheOrGenerate env id t w).1.1 = Resolved (contents f)
  ∧ execArgs (Ffmpeg.fileCacheOrGenerate env id t w).2 = [].
Proof.
  intros Hf. unfold Ffmpeg.fileCacheOrGenerate. rewrite bind_emit.
  assert (Hex : existsSync (Ffmpeg.fs w) (Ffmpeg.saveFile env id t) = true).
  { unfold existsSync. rewrite Hf. by rewrite bool_decide_eq_true_2 by eauto. }
  rewrite Hex. eff_step.
  pose proof (readFileSync_eq (Ffmpeg.saveFile env id t) w) as Hr. rewrite Hf in Hr.
  rewrite (bind_resolved _ _ _ _ _ _ Hr). cbv beta.
  destruct (ff_cacheAdd_eq id t (contents f) w) as (w' & ev & Ha & Hev).
  rewrite (bind_resolved _ _ _ _ _ _ Ha). cbv beta. repeat eff_step.
  simpl. rewrite app_nil_r, Hev. by split.
Qed.

(** * The claims *)

(** C1: scenario A.  For an index file of 0x3000 bytes whose record table is
    [(0,0x40); (2,0x1000); (4,0x2000)] (and whose thumbnail count covers these
    three records), [getThumbnail(id, 3500)] on an item whose interval is not
    yet known converts the timestamp to 3 seconds, reads the interval 2 from
    the second record, selects frame index 1, resolves with exactly the bytes
    of the range [0x1000, 0x2000), and caches them under index 1. *)
Theorem C1_scenario_A fs id m m1 ev1 item f count :
  Bif.hasThumbnails fs id m = (Resolved true, m1, ev1) ->
  getItem (Bif.cache m1) id = Some item ->
  Bif.interval (locator item) = 0 ->
  files fs !! Bif.bifPath (locator item) = Some f ->
  Z.of_nat (length (contents f)) = 0x3000 ->
  readInt32LE (contents f) Bif.thumbnailCountOffset = Some count ->
  3 <= count ->
  Bif.getTimestamp (contents f) 0 = Some 0 ->
  Bif.getOffset (contents f) 0 = Some 0x40 ->
  Bif.getTimestamp (contents f) 1 = Some 2 ->
  Bif.getOffset (contents f) 1 = Some 0x1000 ->
  Bif.getTimestamp (contents f) 2 = Some 4 ->
  Bif.getOffset (contents f) 2 = Some 0x2000 ->
  3500 / 1000 = 3
  ∧ floorDiv 3 2 = Fin 1
  ∧ ∃ m2 ev2,
      Bif.getThumbnail fs id 3500 m
        = (Resolved (byteRange (contents f) 0x1000 0x2000), m2, ev2)
      ∧ Bif.interval ∘ locator <$> getItem (Bif.cache m2) id = Some 2
      ∧ thumbAt (Bif.cache m2) id 1
        = Some {| data := byteRange (contents f) 0x1000 0x2000;
                  rank := maxCache (Bif.cache m1) + 1 |}.
Proof.
  intros Hhas Hit Hiv Hf Hlen Hcount Hc3 Ht0 Ho0 Ht1 Ho1 Ht2 Ho2.
  split; [done|]. split; [done|].
  destruct (bif_hasThumbnails_spec _ _ _ _ _ _ Hhas) as [(it & Hit' & Hthumbs) _].
  rewrite Hit in Hit'. injection Hit' as <-.
  rewrite (bif_getThumbnail_via _ _ _ _ _ _ _ Hhas).
  change (3500 / 1000) with 3.
  rewrite (bif_core_first _ _ _ _ _ Hit Hthumbs Hiv).
  rewrite (bif_readThumbnail_file _ _ _ _ _ _ Hit Hf).
  pose proof (discoverInterval_first _ _ _ _ _ Hit Hiv Ht0 Ht1) as Hd.
  rewrite (readCallback_parsed _ _ _ _ _ _ _ _ Hd Hcount).
  rewrite prepend_nil.
  assert (Hcl : Bif.clampIndex (floorDiv 3 2) (count - 1) (withInterval m1 id 2)
                = (Resolved (Fin 1), withInterval m1 id 2, [])).
  { unfold Bif.clampIndex. change (floorDiv 3 2) with (Fin 1). simpl.
    by destruct (Z.ltb_spec (count - 1) 1); [lia|]. }
  rewrite (bind_resolved _ _ _ _ _ _ Hcl), prepend_nil. cbv beta.
  pose proof (withInterval_item m1 id 2 item Hit) as Hit2.
  destruct (extractFrame_ok (contents f) id 1 (count - 1) (withInterval m1 id 2)
              0x1000 0x2000) as (m2 & ev2 & Hex & Hth & Hloc);
    try done; try (rewrite ?Hlen; lia).
  { by destruct (Z.eqb_spec 1 (count - 1)); [lia|]. }
  rewrite Hex. simpl. eexists _, _. split; [reflexivity|]. split; [|done].
  rewrite Hit2 in Hloc. simpl in Hloc.
  destruct (getItem (Bif.cache m2) id) as [it2|]; [|done].
  simpl in *. by injection Hloc as ->.
Qed.

Lemma C1_witness :
  (Bif.getThumbnail Examples.disk 7 3500 Examples.bif0).1.1
    = Resolved (byteRange Examples.scenarioA 0x1000 0x2000).
Proof.
  destruct (C1_scenario_A Examples.disk 7 Examples.bif0 Examples.bif7
              (Bif.hasThumbnails Examples.disk 7 Examples.bif0).2
              Examples.item7 Examples.fileA 3)
    as (_ & _ & m2 & ev2 & H & _);
    [ first [ lia | vm_compute; reflexivity ] .. | ].
  rewrite H. reflexivity.
Defined.

(** C2: for every index file whose first index record's timestamp is not 0,
    the fetch that first parses that file (the item's interval is still
    unknown) rejects with the corrupt-index error, returns no thumbnail bytes
    and leaves the manager as the existence check left it. *)
Theorem C2_nonzero_first_timestamp_rejects fs id ts m m1 ev1 item f v :
  Bif.hasThumbnails fs id m = (Resolved true, m1, ev1) ->
  getItem (Bif.cache m1) id = Some item ->
  Bif.interval (locator item) = 0 ->
  files fs !! Bif.bifPath (locator item) = Some f ->
  Bif.getTimestamp (contents f) 0 = Some v ->
  v ≠ 0 ->
  Bif.getThumbnail fs id ts m =
    (Rejected (RejectReason "Unexpected thumbnail file contents"), m1,
     ev1 ++ [ReadFile (Bif.bifPath (locator item))]).
Proof.
  intros Hhas Hit Hiv Hf Hts Hv.
  destruct (bif_hasThumbnails_spec _ _ _ _ _ _ Hhas) as [(it & Hit' & Hthumbs) _].
  rewrite Hit in Hit'. injection Hit' as <-.
  rewrite (bif_getThumbnail_via _ _ _ _ _ _ _ Hhas).
  rewrite (bif_core_first _ _ _ _ _ Hit Hthumbs Hiv).
  rewrite (bif_readThumbnail_file _ _ _ _ _ _ Hit Hf).
  unfold Bif.readCallback.
  unfold bind at 1.
  by rewrite (discoverInterval_corrupt _ _ _ _ _ Hit Hiv Hts Hv).
Qed.

Lemma C2_witness :
  (Bif.getThumbnail Examples.disk 8 0 Examples.bif0).1
    = (Rejected (RejectReason "Unexpected thumbnail file contents"), Examples.bif8).
Proof.
  rewrite (C2_nonzero_first_timestamp_rejects Examples.disk 8 0 Examples.bif0
             Examples.bif8 (Bif.hasThumbnails Examples.disk 8 Examples.bif0).2
             Examples.item8 Examples.fileCorrupt 1);
    first [ reflexivity | lia | vm_compute; reflexivity ].
Defined.

(** C3: for a parsed index file with frame count N (at least one frame), a
    request whose computed index floor(timestamp / interval) is at least N
    gives the same result as a request for the last valid index N - 1, namely
    the bytes from that frame's offset to the end of the file; and a request
    whose computed index is negative gives the same result as a request for
    index 0, namely the bytes of frame 0. *)
Theorem C3_out_of_range_requests_clamp fs id m item f iv m1 ev0 N :
  getItem (Bif.cache m) id = Some item ->
  files fs !! Bif.bifPath (locator item) = Some f ->
  Bif.discoverInterval (contents f) id m = (Resolved iv, m1, ev0) ->
  readInt32LE (contents f) Bif.thumbnailCountOffset = Some N ->
  1 <= N ->
  (∀ t tlast,
      js_gt (floorDiv t iv) (N - 1) = true ->
      floorDiv tlast iv = Fin (N - 1) ->
      (Bif.readThumbnail fs id t m).1 = (Bif.readThumbnail fs id tlast m).1)
  ∧ (∀ t t0,
      js_lt (floorDiv t iv) 0 = true ->
      floorDiv t0 iv = Fin 0 ->
      (Bif.readThumbnail fs id t m).1 = (Bif.readThumbnail fs id t0 m).1)
  ∧ (∀ t s,
      js_gt (floorDiv t iv) (N - 1) = true ->
      Bif.getOffset (contents f) (N - 1) = Some s ->
      0 <= s <= Z.of_nat (length (contents f)) ->
      (Bif.readThumbnail fs id t m).1.1
        = Resolved (byteRange (contents f) s (Z.of_nat (length (contents f)))))
  ∧ (∀ t s e,
      js_lt (floorDiv t iv) 0 = true ->
      Bif.getOffset (contents f) 0 = Some s ->
      (if N =? 1 then Some (Z.of_nat (length (contents f)))
       else Bif.getOffset (contents f) 1) = Some e ->
      0 <= s <= e -> e <= Z.of_nat (length (contents f)) ->
      (Bif.readThumbnail fs id t m).1.1 = Resolved (byteRange (contents f) s e)).
Proof.
  intros Hit Hf Hd Hc HN.
  assert (Hlow : ∀ x, js_lt x 0 = true -> js_gt x (N - 1) = false).
  { intros [z| | |]; simpl; try done. intros ?%Z.ltb_lt. apply Z.ltb_ge. lia. }
  split; [|split; [|split]].
  - intros t tlast Hgt Hlast.
    rewrite !(bif_readThumbnail_file _ _ _ _ _ _ Hit Hf), !prepend_fst.
    apply (readCallback_same_index _ _ _ _ _ _ _ _ _ Hd Hc).
    rewrite !clampIndex_fst, Hgt, Hlast. simpl.
    rewrite Z.ltb_irrefl. by destruct (Z.ltb_spec (N - 1) 0); [lia|].
  - intros t t0 Hlt H0.
    rewrite !(bif_readThumbnail_file _ _ _ _ _ _ Hit Hf), !prepend_fst.
    apply (readCallback_same_index _ _ _ _ _ _ _ _ _ Hd Hc).
    rewrite !clampIndex_fst, (Hlow _ Hlt), Hlt, H0. simpl.
    by destruct (Z.ltb_spec (N - 1) 0); [lia|].
  - intros t s Hgt Hs Hrange.
    rewrite (bif_readThumbnail_file _ _ _ _ _ _ Hit Hf), prepend_fst.
    apply (readCallback_clamped _ _ _ _ _ _ _ _ (N - 1) s _ Hd Hc); try done; try lia.
    + by rewrite clampIndex_fst, Hgt.
    + by rewrite Z.eqb_refl.
  - intros t s e Hlt Hs He Hse Hlen.
    rewrite (bif_readThumbnail_file _ _ _ _ _ _ Hit Hf), prepend_fst.
    apply (readCallback_clamped _ _ _ _ _ _ _ _ 0 s e Hd Hc); try done.
    + by rewrite clampIndex_fst, (Hlow _ Hlt), Hlt.
    + rewrite <- He. destruct (Z.eqb_spec N 1), (Z.eqb_spec 0 (N - 1)); try done; lia.
Qed.

Lemma C3_witness :
  (Bif.readThumbnail Examples.disk 7 100 Examples.bif7).1
    = (Bif.readThumbnail Examples.disk 7 5 Examples.bif7).1
  ∧ (Bif.readThumbnail Examples.disk 7 (-3) Examples.bif7).1
    = (Bif.readThumbnail Examples.disk 7 1 Examples.bif7).1
  ∧ (Bif.readThumbnail Examples.disk 7 100 Examples.bif7).1.1
    = Resolved (byteRange Examples.scenarioA 0x2000 0x3000).
Proof.
  destruct (C3_out_of_range_requests_clamp Examples.disk 7 Examples.bif7
              Examples.item7 Examples.fileA 2 (withInterval Examples.bif7 7 2) [] 3)
    as (Hhi & Hlo & Hlast & _);
    [ first [ lia | vm_compute; reflexivity ] .. | ].
  split; [|split].
  - apply Hhi; reflexivity.
  - apply Hlo; reflexivity.
  - rewrite (Hlast 100 0x2000); first [ reflexivity | vm_compute; reflexivity | idtac ].
    vm_compute. split; discriminate.
Defined.

(** C4: the aging cache.  In a cache whose tick counter is in range:
    - [add] on an existing item stores the sub-entry with rank maxCache + 1
      and increments the tick counter (resetting it to 0 when it reaches 20);
    - a successful [tryGet] returns the data, sets the sub-entry's rank to
      maxCache + 1 and increments the tick counter the same way; when this is
      the tick that reaches 20, the sweep then lowers that rank by 20 like
      every other;
    - when the counter reaches 20, every other sub-entry of every item loses
      20 of its rank and is deleted if the result is at most 0; otherwise it
      is unchanged;
    - hence after operations making exactly 20 touches, none of which
      accesses sub-entry X, the counter is back at its value and X has lost
      exactly 20 of its rank if it survives (it is deleted when that leaves
      at most 0). *)
Theorem C4_aging {L} (c : CacheMap L) :
  0 <= tick c < maxTick ->
  (∀ id ts buf, is_Some (getItem c id) ->
     thumbAt (add c id ts buf).1 id ts = Some {| data := buf; rank := maxCache c + 1 |}
     ∧ tick (add c id ts buf).1 = (if tick c + 1 =? 20 then 0 else tick c + 1))
  ∧ (∀ id ts th, thumbAt c id ts = Some th ->
     (tryGet c id ts).1.1 = Some (data th)
     ∧ tick (tryGet c id ts).1.2 = (if tick c + 1 =? 20 then 0 else tick c + 1)
     ∧ thumbAt (tryGet c id ts).1.2 id ts
       = (if tick c + 1 =? 20
          then (if maxCache c + 1 - 20 <=? 0 then None
                else Some {| data := data th; rank := maxCache c + 1 - 20 |})
          else Some {| data := data th; rank := maxCache c + 1 |}))
  ∧ (∀ op id ts th, touches c op = true -> avoids id ts op -> thumbAt c id ts = Some th ->
     thumbAt (step c op) id ts
       = (if tick c + 1 =? 20
          then (if rank th - 20 <=? 0 then None
                else Some {| data := data th; rank := rank th - 20 |})
          else Some th))
  ∧ (∀ ops id ts th,
       Forall (avoids id ts) ops -> touchCount c ops = 20 -> thumbAt c id ts = Some th ->
       tick (run c ops) = tick c
       ∧ thumbAt (run c ops) id ts
         = (if rank th - 20 <=? 0 then None
            else Some {| data := data th; rank := rank th - 20 |})
       ∧ ∀ th', thumbAt (run c ops) id ts = Some th' ->
                rank th' = rank th - 20 ∧ data th' = data th).
Proof.
  intros Htick. split; [|split; [|split]].
  - intros id ts buf [it Hit]. unfold getItem in Hit.
    rewrite add_fst, Hit. split.
    + apply setThumb_thumbAt_eq. rewrite touch_lookup, Hit.
      destruct (_ =? _); simpl; eauto.
    + change (tick (setThumb ?c _ _ _)) with (tick c). apply touch_tick.
  - intros id ts th Hth. rewrite tryGet_result, tryGet_state, Hth.
    split; [done|]. split; [apply touch_tick|].
    rewrite touch_thumbAt.
    rewrite setThumb_thumbAt_eq by by eapply thumbAt_item.
    change (tick (setThumb ?c _ _ _)) with (tick c). done.
  - intros op id ts th Htouch Hav Hth.
    rewrite (step_thumbAt c op id ts Hav), Htouch, Hth. done.
  - intros ops id ts th Hav Hcount Hth.
    destruct (run_thumbAt c ops id ts Htick Hav) as [H1 H2].
    rewrite Hcount in H1, H2. unfold maxTick in *.
    replace (tick c + 20) with (tick c + 1 * 20) in H1, H2 by lia.
    rewrite Z.div_add, Z.div_small in H1 by lia.
    rewrite Z_mod_plus_full, Z.mod_small in H2 by lia.
    rewrite Hth in H1. simpl in H1. unfold decay, maxTick in H1. simpl in H1.
    split; [done|]. split; [done|].
    intros th' Hth'. rewrite H1 in Hth'.
    destruct (rank th - 20 <=? 0); [done|]. by injection Hth' as <-.
Qed.

Lemma C4_witness :
  thumbAt (run Examples.twoThumbs Examples.twentyReads) 1 5
    = Some {| data := [xaa]; rank := 181 |}.
Proof.
  destruct (C4_aging Examples.twoThumbs) as (_ & _ & _ & H).
  - change (0 <= 0 < 20). lia.
  - destruct (H Examples.twentyReads 1 5 {| data := [xaa]; rank := 201 |})
      as (_ & Hrank & _).
    + unfold Examples.twentyReads. simpl.
      repeat constructor; intros [_ Heq]; discriminate Heq.
    + vm_compute; reflexivity.
    + vm_compute; reflexivity.
    + rewrite Hrank. reflexivity.
Defined.

(** C5: scenario B.  With a cached media duration of 60000 ms, a fetch for
    timestamp 60500 ms uses the effective timestamp 59000 ms: it is the key
    looked up in the in-memory cache, the name of the file looked up in the
    disk cache, and the seek offset (and output file name) of the one
    subprocess run when both miss. *)
Theorem C5_scenario_B env id w item :
  getItem (Ffmpeg.cache (Ffmpeg.mgr w)) id = Some item ->
  hasThumbs item = true ->
  Ffmpeg.duration (locator item) = 60000 ->
  Ffmpeg.effectiveTimestamp 60000 60500 = 59000
  ∧ (∀ th, cachedThumbnails item !! 59000 = Some th ->
       (Ffmpeg.getThumbnail env id 60500 w).1.1 = Resolved (data th)
       ∧ execArgs (Ffmpeg.getThumbnail env id 60500 w).2 = [])
  ∧ (∀ f, cachedThumbnails item !! 59000 = None ->
       files (Ffmpeg.fs w) !! Ffmpeg.saveFile env id 59000 = Some f ->
       (Ffmpeg.getThumbnail env id 60500 w).1.1 = Resolved (contents f)
       ∧ execArgs (Ffmpeg.getThumbnail env id 60500 w).2 = [])
  ∧ (cachedThumbnails item !! 59000 = None ->
       existsSync (Ffmpeg.fs w) (Ffmpeg.saveFile env id 59000) = false ->
       execArgs (Ffmpeg.getThumbnail env id 60500 w).2
         = [{| arg_ss := 59000;
               arg_input := Ffmpeg.filePath (locator item);
               arg_output := Ffmpeg.saveFile env id 59000 |}]).
Proof.
  intros Hit Hhas Hdur.
  assert (Ht : Ffmpeg.effectiveTimestamp (Ffmpeg.duration (locator item)) 60500 = 59000)
    by by rewrite Hdur.
  rewrite (ff_getThumbnail_cached _ _ _ _ _ Hit).
  split; [done|]. split; [|split].
  - intros th Hth. apply (ff_core_hit _ _ _ _ _ _ Hit Hhas). by rewrite Ht.
  - intros f Hmiss Hf. rewrite (ff_core_miss _ _ _ _ _ Hit Hhas) by by rewrite Ht.
    rewrite Ht. by apply ff_disk_hit.
  - intros Hmiss Hex. rewrite (ff_core_miss _ _ _ _ _ Hit Hhas) by by rewrite Ht.
    rewrite Ht. by rewrite (ff_generate_execs _ _ _ _ _ Hit Hex).
Qed.

Lemma C5_witness :
  execArgs (Ffmpeg.getThumbnail Examples.stalling 7 60500 Examples.world7).2
    = [{| arg_ss := 59000;
          arg_input := "/media/ep7.mkv";
          arg_output := "/app/cache/7/59000.jpg" |}].
Proof.
  destruct (C5_scenario_B Examples.stalling 7 Examples.world7 Examples.episode7)
    as (_ & _ & _ & H);
    [ vm_compute; reflexivity .. | ].
  rewrite H; vm_compute; reflexivity.
Defined.

(** C6 (as amended): when both caches miss and the frame-extraction
    subprocess exceeds its timeout or exits with an error, the fetch rejects
    with the subprocess failure after that one subprocess run and the manager,
    with its in-memory cache, is unchanged.  Nothing is removed from disk:
    the file at the output path is exactly what the failed subprocess left
    there (no file, if it wrote none), and when it left one, the next fetch
    for the same item and timestamp resolves with that file's bytes. *)
Theorem C6_failed_subprocess env id ts w item t args :
  getItem (Ffmpeg.cache (Ffmpeg.mgr w)) id = Some item ->
  hasThumbs item = true ->
  t = Ffmpeg.effectiveTimestamp (Ffmpeg.duration (locator item)) ts ->
  args = {| arg_ss := t;
            arg_input := Ffmpeg.filePath (locator item);
            arg_output := Ffmpeg.saveFile env id t |} ->
  cachedThumbnails item !! t = None ->
  existsSync (Ffmpeg.fs w) (Ffmpeg.saveFile env id t) = false ->
  Ffmpeg.exit (Ffmpeg.ffmpeg env args) ≠ Ffmpeg.Exited 0 ->
  ∃ w' ev,
    Ffmpeg.getThumbnail env id ts w
      = (Rejected (SubprocessFailure (Ffmpeg.timedOut (Ffmpeg.ffmpeg env args))), w', ev)
    ∧ execArgs ev = [args]
    ∧ Ffmpeg.mgr w' = Ffmpeg.mgr w
    ∧ files (Ffmpeg.fs w') !! Ffmpeg.saveFile env id t
      = Ffmpeg.written (Ffmpeg.ffmpeg env args)
    ∧ (∀ p, p ≠ Ffmpeg.saveFile env id t ->
            files (Ffmpeg.fs w') !! p = files (Ffmpeg.fs w) !! p)
    ∧ (∀ f, Ffmpeg.written (Ffmpeg.ffmpeg env args) = Some f ->
            (Ffmpeg.getThumbnail env id ts w').1.1 = Resolved (contents f)).
Proof.
  intros Hit Hhas -> -> Hmiss Hex Hfail.
  set (t := Ffmpeg.effectiveTimestamp _ _) in *.
  set (args := {| arg_ss := t |}) in *.
  assert (Habsent : files (Ffmpeg.fs w) !! Ffmpeg.saveFile env id t = None).
  { unfold existsSync in Hex. apply orb_false_iff in Hex as [Hex _].
    apply bool_decide_eq_false in Hex.
    destruct (files _ !! _); [|done]. destruct Hex; eauto. }
  rewrite (ff_getThumbnail_cached _ _ _ _ _ Hit).
  rewrite (ff_core_miss _ _ _ _ _ Hit Hhas Hmiss).
  fold t. rewrite (ff_generate_unfold _ _ _ _ _ Hit Hex).
  change (ffArgs env id t item) with args.
  pose proof (execFileSync_eq env args (afterMkdir env id w)) as He.
  assert (He' : Ffmpeg.execFileSync env args (afterMkdir env id w)
                = (Rejected (SubprocessFailure (Ffmpeg.timedOut (Ffmpeg.ffmpeg env args))),
                   afterExec env args (afterMkdir env id w), [ExecFfmpeg args])).
  { rewrite He. by destruct (Ffmpeg.exit (Ffmpeg.ffmpeg env args)) as [[|?|?]|]. }
  unfold bind at 1. rewrite He'. simpl prepend.
  set (w' := afterExec env args (afterMkdir env id w)).
  assert (Hmgr : Ffmpeg.mgr w' = Ffmpeg.mgr w)
    by (unfold w'; by rewrite afterExec_mgr, afterMkdir_mgr).
  assert (Hfiles : files (Ffmpeg.fs w')
                   = match Ffmpeg.written (Ffmpeg.ffmpeg env args) with
                     | Some f => <[Ffmpeg.saveFile env id t := f]> (files (Ffmpeg.fs w))
                     | None => files (Ffmpeg.fs w)
                     end)
    by (unfold w'; by rewrite afterExec_files, afterMkdir_files).
  exists w', [ExistsSync (Ffmpeg.saveFile env id t);
              MkdirSync (Ffmpeg.savePath env id); ExecFfmpeg args].
  split; [done|]. split; [done|]. split; [done|].
  split; [|split].
  - rewrite Hfiles. destruct (Ffmpeg.written _); [|done]. by rewrite lookup_insert_eq.
  - intros p Hp. rewrite Hfiles. destruct (Ffmpeg.written _); [|done].
    by rewrite lookup_insert_ne.
  - intros f Hw.
    assert (Hit' : getItem (Ffmpeg.cache (Ffmpeg.mgr w')) id = Some item)
      by by rewrite Hmgr.
    rewrite (ff_getThumbnail_cached _ _ _ _ _ Hit').
    rewrite (ff_core_miss _ _ _ _ _ Hit' Hhas Hmiss).
    apply ff_disk_hit. rewrite Hfiles, Hw. by rewrite lookup_insert_eq.
Qed.

Lemma C6_witness :
  (Ffmpeg.getThumbnail Examples.stalling 7 5000 Examples.world7).1.1
    = Rejected (SubprocessFailure true).
Proof.
  destruct (C6_failed_subprocess Examples.stalling 7 5000 Examples.world7
              Examples.episode7 5000
              {| arg_ss := 5000; arg_input := "/media/ep7.mkv";
                 arg_output := "/app/cache/7/5000.jpg" |})
    as (w' & ev & H & _);
    [ first [ discriminate | vm_compute; reflexivity ] .. | ].
  rewrite H. reflexivity.
Defined.

(** C6, as stated, fails: a subprocess that has written part of its output
    when the timeout kills it leaves that file in the disk cache, where there
    was none; the fetch rejects, and the next fetch for the same item and
    timestamp resolves with the partial bytes and puts them in the in-memory
    cache. *)
Lemma C6_partial_output_is_cached :
  Ffmpeg.timedOut
    (Ffmpeg.ffmpeg Examples.stalling
       {| arg_ss := 5000; arg_input := "/media/ep7.mkv";
          arg_output := "/app/cache/7/5000.jpg" |}) = true
  ∧ files (Ffmpeg.fs Examples.world7) !! "/app/cache/7/5000.jpg" = None
  ∧ (Ffmpeg.getThumbnail Examples.stalling 7 5000 Examples.world7).1.1
    = Rejected (SubprocessFailure true)
  ∧ files (Ffmpeg.fs (Ffmpeg.getThumbnail Examples.stalling 7 5000 Examples.world7).1.2)
      !! "/app/cache/7/5000.jpg" = Some Examples.partial
  ∧ (Ffmpeg.getThumbnail Examples.stalling 7 5000
       (Ffmpeg.getThumbnail Examples.stalling 7 5000 Examples.world7).1.2).1.1
    = Resolved [xff; xd8]
  ∧ data <$> thumbAt
               (Ffmpeg.cache (Ffmpeg.mgr
                  (Ffmpeg.getThumbnail Examples.stalling 7 5000
                     (Ffmpeg.getThumbnail Examples.stalling 7 5000
                        Examples.world7).1.2).1.2))
               7 5000
    = Some [xff; xd8].
Proof. vm_compute. repeat split. Qed.

(** C7: for either backend, when a call of [hasThumbnails(id)] resolves with a
    boolean, it made at most one database query, it did not change the disk,
    and a second call in the state it left resolves with the same boolean,
    leaves that state unchanged and performs no event at all: no database
    query and no filesystem probe. *)
Theorem C7_hasThumbnails_idempotent id fs b r fs1 b1 ev1 :
  ThumbnailManager.hasThumbnails id (fs, b) = (Resolved r, (fs1, b1), ev1) ->
  ThumbnailManager.hasThumbnails id (fs1, b1) = (Resolved r, (fs1, b1), [])
  ∧ fs1 = fs
  ∧ (countDb ev1 <= 1)%nat.
Proof.
  unfold ThumbnailManager.hasThumbnails. destruct b as [m|m].
  - destruct (Bif.hasThumbnails fs id m) as [[o m1] ev] eqn:H.
    intros Heq. injection Heq as -> <- <- <-.
    destruct (bif_hasThumbnails_spec _ _ _ _ _ _ H) as [(it & Hit & Hb) Hdb].
    by rewrite (bif_hasThumbnails_cached _ _ _ _ Hit), Hb.
  - destruct (Ffmpeg.hasThumbnails id _) as [[o w1] ev] eqn:H.
    intros Heq. injection Heq as -> <- <- <-.
    destruct (ff_hasThumbnails_spec _ _ _ _ _ H) as ((it & Hit & Hb) & Hfs & Hdb).
    assert (Hw : {| Ffmpeg.fs := Ffmpeg.fs w1; Ffmpeg.mgr := Ffmpeg.mgr w1 |} = w1)
      by by destruct w1.
    rewrite Hw, (ff_hasThumbnails_cached _ _ _ Hit), Hb. by rewrite Hfs.
Qed.

Lemma C7_witness :
  ThumbnailManager.hasThumbnails 7
    (Examples.disk, ThumbnailManager.BifBackend Examples.bif7)
  = (Resolved true, (Examples.disk, ThumbnailManager.BifBackend Examples.bif7), [])
  ∧ ThumbnailManager.hasThumbnails 9
      (Examples.disk, ThumbnailManager.FfmpegBackend
                        (Ffmpeg.mgr (Ffmpeg.hasThumbnails 9 Examples.world0).1.2))
    = (Resolved false,
       (Examples.disk, ThumbnailManager.FfmpegBackend
                         (Ffmpeg.mgr (Ffmpeg.hasThumbnails 9 Examples.world0).1.2)), []).
Proof.
  split.
  - apply (C7_hasThumbnails_idempotent 7 Examples.disk
             (ThumbnailManager.BifBackend Examples.bif0) true Examples.disk
             (ThumbnailManager.BifBackend Examples.bif7)
             (Bif.hasThumbnails Examples.disk 7 Examples.bif0).2).
    vm_compute; reflexivity.
  - apply (C7_hasThumbnails_idempotent 9 Examples.disk
             (ThumbnailManager.FfmpegBackend (Ffmpeg.mgr Examples.world0)) false
             Examples.disk
             (ThumbnailManager.FfmpegBackend
                (Ffmpeg.mgr (Ffmpeg.hasThumbnails 9 Examples.world0).1.2))
             (Ffmpeg.hasThumbnails 9 Examples.world0).2).
    vm_compute; reflexivity.
Defined.

(** C8 (as amended): a second [Create] without an intervening [Close] logs the
    warning and then constructs a new manager that replaces the first as the
    active instance: [Instance] afterwards is the object returned by the
    second call, a different object from the first, freshly constructed for
    the backend the configuration selects at the time of that call.  The first
    object is not modified; it is only no longer the active one. *)
Theorem C8_second_create_replaces c1 db1 mp1 c2 db2 mp2 p :
  let '(r1, p1, _) := ThumbnailManager.Create c1 db1 mp1 p in
  let '(r2, p2, ev2) := ThumbnailManager.Create c2 db2 mp2 p1 in
  ev2 = [ThumbnailManager.alreadyInitialized]
  ∧ ThumbnailManager.Instance p1 = Some r1
  ∧ ThumbnailManager.Instance p2 = Some r2
  ∧ r2 ≠ r1
  ∧ ThumbnailManager.active p2
    = Some (if c2 then ThumbnailManager.FfmpegBackend (Ffmpeg.new db2)
            else ThumbnailManager.BifBackend (Bif.new db2 mp2))
  ∧ ThumbnailManager.heap p2 !! r1 = ThumbnailManager.heap p1 !! r1.
Proof.
  unfold ThumbnailManager.Create, ThumbnailManager.active. simpl.
  split; [done|]. split; [done|]. split; [done|]. split; [lia|]. split.
  - by rewrite lookup_insert_eq.
  - rewrite lookup_insert_ne; [done|lia].
Qed.

(** C8, as stated, fails: after a second [Create] the active instance is not
    the instance the first call produced, and with the configuration changed
    in between it is an instance of the other backend. *)
Lemma C8_second_create_is_not_the_first :
  let '(r1, p1, _) :=
    ThumbnailManager.Create false Examples.db "/plex" ThumbnailManager.start in
  let '(r2, p2, _) := ThumbnailManager.Create true Examples.db "/plex" p1 in
  ThumbnailManager.Instance p2 ≠ Some r1
  ∧ ThumbnailManager.active p1
    = Some (ThumbnailManager.BifBackend (Bif.new Examples.db "/plex"))
  ∧ ThumbnailManager.active p2
    = Some (ThumbnailManager.FfmpegBackend (Ffmpeg.new Examples.db)).
Proof.
  unfold ThumbnailManager.Create, ThumbnailManager.active. simpl.
  split; [discriminate|]. split; reflexivity.
Qed.

(** C9: an item-level entry is never removed.  After any sequence of cache
    operations ([add], [tryGet], the sweep of [#touch], [getItem], and
    [_addItem]), [getItem] still finds an entry for every metadata id that had
    one; and unless the sequence itself re-creates that id's entry with
    [_addItem], the entry has the same flag and the same locator as before. *)
Theorem C9_items_never_removed {L} (c : CacheMap L) (ops : list (CacheOp L)) id item :
  getItem c id = Some item ->
  ∃ item',
    getItem (run c ops) id = Some item'
    ∧ (Forall (fun op => ¬ replaces id op) ops ->
       hasThumbs item' = hasThumbs item ∧ locator item' = locator item).
Proof.
  revert c item. induction ops as [|op ops IH]; intros c item Hit; simpl.
  - eauto.
  - destruct (step_item c op id item Hit) as (it1 & H1 & Hsame1).
    destruct (IH _ _ H1) as (item' & H' & Hsame').
    exists item'. split; [done|]. intros Hall.
    inversion Hall; subst.
    destruct Hsame1 as [<- <-]; [done|]. by apply Hsame'.
Qed.

Lemma C9_witness :
  ∃ item',
    getItem (run Examples.twoThumbs (OpAdd 1 9 [xcc] :: OpTouch :: Examples.twentyReads)) 1
      = Some item'
    ∧ hasThumbs item' = true.
Proof.
  destruct (C9_items_never_removed Examples.twoThumbs
              (OpAdd 1 9 [xcc] :: OpTouch :: Examples.twentyReads) 1
              {| hasThumbs := true;
                 cachedThumbnails := {[ 5 := {| data := [xaa]; rank := 201 |};
                                        6 := {| data := [xbb]; rank := 201 |} ]};
                 locator := tt |})
    as (item' & Hget & Hsame).
  - vm_compute; reflexivity.
  - exists item'. split; [exact Hget|]. apply Hsame.
    unfold Examples.twentyReads. simpl. repeat constructor; intros H; exact H.
Defined.

(** C10: [add(metadataId, timestamp, buffer)] when no item-level entry exists
    for [metadataId] changes nothing: the whole cache state, tick counter
    included, is as before, no thumbnail is stored anywhere, and the call
    returns normally, having only logged a warning. *)
Theorem C10_add_without_item {L} (c : CacheMap L) id ts buf :
  getItem c id = None ->
  (add c id ts buf).1 = c
  ∧ List.forallb is_warning (add c id ts buf).2 = true
  ∧ ∀ i t, thumbAt (add c id ts buf).1 i t = thumbAt c i t.
Proof.
  unfold getItem, add. intros ->. by repeat split.
Qed.

Lemma C10_witness :
  (add (newCacheMap 200 : CacheMap unit) 1 5 [xaa]).1 = newCacheMap 200.
Proof.
  apply (C10_add_without_item (newCacheMap 200 : CacheMap unit) 1 5 [xaa]).
  vm_compute; reflexivity.
Defined.

(** * Further facts about CacheMap *)

Section MoreCacheFacts.
Context {L : Type}.
Implicit Types (c : CacheMap L) (op : CacheOp L) (ops : list (CacheOp L)).

Lemma touch_item c i : is_Some (cacheMap c !! i) -> is_Some (cacheMap (touch c).1 !! i).
Proof.
  intros [it Hit]. rewrite touch_lookup, Hit. destruct (_ =? _); simpl; eauto.
Qed.

Lemma add_thumbAt_self c id ts buf :
  is_Some (cacheMap c !! id) ->
  thumbAt (add c id ts buf).1 id ts = Some {| data := buf; rank := maxCache c + 1 |}.
Proof.
  intros Hit. rewrite add_fst. destruct Hit as [it Hit]. rewrite Hit.
  apply setThumb_thumbAt_eq, touch_item. eauto.
Qed.

Lemma add_item c id ts buf i :
  is_Some (cacheMap c !! i) -> is_Some (cacheMap (add c id ts buf).1 !! i).
Proof.
  intros Hi. rewrite add_fst. destruct (cacheMap c !! id) eqn:E; [|done].
  rewrite setThumb_lookup. apply (touch_item c) in Hi. destruct Hi as [it' Hi].
  rewrite Hi. destruct (decide (id = i)); simpl; eauto.
Qed.

Lemma setThumb_thumbAt c i t th j u :
  thumbAt (setThumb c i t th) j u =
    if decide (i = j ∧ t = u)
    then (match cacheMap c !! i with Some _ => Some th | None => None end)
    else thumbAt c j u.
Proof.
  destruct (decide (i = j ∧ t = u)) as [[-> ->]|Hne].
  - destruct (cacheMap c !! j) as [it|] eqn:E.
    + apply setThumb_thumbAt_eq. eauto.
    + unfold thumbAt. by rewrite setThumb_lookup, decide_True, E.
  - by apply setThumb_thumbAt_ne.
Qed.

Lemma step_maxCache c op : maxCache (step c op) = maxCache c.
Proof.
  destruct op as [i t b|i t| |i|i it]; simpl; try done.
  - rewrite add_fst. destruct (cacheMap c !! i); [|done]. apply touch_maxCache.
  - rewrite tryGet_state. destruct (thumbAt c i t); [|done]. by rewrite touch_maxCache.
  - apply touch_maxCache.
Qed.

Lemma run_maxCache c ops : maxCache (run c ops) = maxCache c.
Proof.
  revert c. induction ops as [|op ops IH]; intros c; simpl; [done|].
  by rewrite IH, step_maxCache.
Qed.

Lemma decayN_None n : decayN n None = None.
Proof. induction n; simpl; done. Qed.

Lemma decayN_afterSweeps n th :
  decayN n (Some th) = afterSweeps (Z.of_nat n) th.
Proof.
  revert th. induction n as [|n IH]; intros th.
  - unfold afterSweeps. simpl. rewrite Z.mul_0_r, Z.sub_0_r. by destruct th.
  - change (decayN (S n) (Some th)) with (decayN n (decay th)).
    unfold decay. unfold afterSweeps at 1.
    destruct (Z.leb_spec (rank th - maxTick) 0) as [Hle|Hgt].
    + rewrite decayN_None. unfold afterSweeps, maxTick in *.
      destruct (Z.ltb_spec 0 (Z.of_nat (S n))); [|lia].
      destruct (Z.leb_spec (rank th - 20 * Z.of_nat (S n)) 0); [done|lia].
    + rewrite IH. unfold afterSweeps, maxTick in *. simpl.
      destruct (Z.ltb_spec 0 (Z.of_nat (S n))); [|lia].
      destruct (Z.ltb_spec 0 (Z.of_nat n)); simpl;
        destruct (Z.leb_spec (rank th - 20 - 20 * Z.of_nat n) 0);
        destruct (Z.leb_spec (rank th - 20 * Z.of_nat (S n)) 0);
        try lia; try done; f_equal; f_equal; lia.
Qed.

Lemma touch_rank c :
  (∀ id ts th, thumbAt c id ts = Some th -> 0 < rank th <= maxCache c + 1) ->
  ∀ id ts th, thumbAt (touch c).1 id ts = Some th -> 0 < rank th <= maxCache c + 1.
Proof.
  intros H id ts th. rewrite touch_thumbAt.
  destruct (_ =? _); [|apply H].
  destruct (thumbAt c id ts) as [th0|] eqn:E; [|done]. simpl.
  unfold decay, maxTick. specialize (H _ _ _ E).
  destruct (Z.leb_spec (rank th0 - 20) 0); [done|].
  intros [= <-]. simpl. lia.
Qed.

Lemma setThumb_rank c i t new :
  0 < rank new <= maxCache c + 1 ->
  (∀ id ts th, thumbAt c id ts = Some th -> 0 < rank th <= maxCache c + 1) ->
  ∀ id ts th, thumbAt (setThumb c i t new) id ts = Some th ->
              0 < rank th <= maxCache c + 1.
Proof.
  intros Hnew H id ts th. rewrite setThumb_thumbAt.
  destruct (decide _); [|apply H].
  destruct (cacheMap c !! i); [|done]. by intros [= <-].
Qed.

Lemma step_wellFormed c op :
  0 <= maxCache c -> createsEmpty op -> wellFormed c -> wellFormed (step c op).
Proof.
  intros Hmc Hop [Htick Hrank]. split; [by apply step_tick_range|].
  rewrite step_maxCache.
  destruct op as [i t b|i t| |i|i it]; simpl.
  - rewrite add_fst. destruct (cacheMap c !! i); [|done].
    rewrite <- (touch_maxCache c). apply setThumb_rank.
    + simpl. rewrite touch_maxCache. lia.
    + rewrite touch_maxCache. by apply touch_rank.
  - rewrite tryGet_state. destruct (thumbAt c i t) as [th0|]; [|done].
    intros id ts th Hth.
    pose proof (touch_rank (setThumb c i t {| data := data th0; rank := maxCache c + 1 |}))
      as Ht.
    change (maxCache (setThumb c i t _)) with (maxCache c) in Ht.
    eapply Ht; [|exact Hth].
    apply setThumb_rank; [simpl; lia|done].
  - by apply touch_rank.
  - done.
  - intros id ts th. unfold thumbAt, _addItem. simpl.
    rewrite lookup_insert. destruct (decide (i = id)) as [->|]; simpl.
    + simpl in Hop. rewrite Hop. by rewrite lookup_empty.
    + apply Hrank.
Qed.

End MoreCacheFacts.

(** X1 (CacheMap.add / tryGet round trip).  For an item that has an entry, a
    thumbnail added under a timestamp is what the next tryGet of that
    timestamp returns; adding again under the same timestamp overwrites it,
    and tryGet then returns the newer bytes. *)
Theorem X1_add_then_tryGet {L} (c : CacheMap L) id ts buf buf' :
  is_Some (getItem c id) ->
  (tryGet (add c id ts buf).1 id ts).1.1 = Some buf
  ∧ (tryGet (add (add c id ts buf).1 id ts buf').1 id ts).1.1 = Some buf'.
Proof.
  intros Hit. unfold getItem in Hit. split.
  - by rewrite tryGet_result, add_thumbAt_self.
  - rewrite tryGet_result, add_thumbAt_self; [done|]. by apply add_item.
Qed.

(** X2 (#touch, over any number of sweeps).  Let an entry hold rank [rank th]
    and let a sequence of operations never add or fetch that entry.  With
    n = (tick + number of touches) / 20 sweeps having run, the entry is
    still present exactly when no sweep ran or 20 * n < rank, and it then
    holds rank - 20 * n with its bytes unchanged: an entry is deleted by the
    first sweep that would bring its rank to 0 or below, never earlier. *)
Theorem X2_eviction_after_sweeps {L} (c : CacheMap L) (ops : list (CacheOp L)) id ts th :
  0 <= tick c < maxTick ->
  Forall (avoids id ts) ops ->
  thumbAt c id ts = Some th ->
  thumbAt (run c ops) id ts
    = afterSweeps ((tick c + touchCount c ops) / maxTick) th
  ∧ (is_Some (thumbAt (run c ops) id ts)
     ↔ maxTick * ((tick c + touchCount c ops) / maxTick) < rank th
       ∨ tick c + touchCount c ops < maxTick).
Proof.
  intros Htick Hav Hth.
  destruct (run_thumbAt c ops id ts Htick Hav) as [H1 _].
  pose proof (touchCount_nonneg c ops) as Hk.
  assert (Hn : 0 <= (tick c + touchCount c ops) / maxTick)
    by (apply Z.div_pos; unfold maxTick in *; lia).
  rewrite H1, Hth, decayN_afterSweeps, Z2Nat.id by done.
  split; [done|].
  unfold afterSweeps. set (n := (tick c + touchCount c ops) / maxTick) in *.
  assert (Hsmall : tick c + touchCount c ops < maxTick ↔ n = 0).
  { unfold n, maxTick in *. split.
    - intros. apply Z.div_small. lia.
    - intros H0. apply Z.div_small_iff in H0; lia. }
  destruct (Z.ltb_spec 0 n), (Z.leb_spec (rank th - maxTick * n) 0); simpl;
    split; intros H'; eauto; try (by destruct H' as [? [=]]); try lia.
Qed.

(** X3 (invariant of CacheMap).  In every cache reached from a new
    CacheMap(maxCache) with maxCache >= 0 by add, tryGet, #touch, getItem
    and _addItem of items created with no thumbnails, the tick stays in
    [0, 20), every stored rank lies in (0, maxCache + 1], and maxCache
    never changes. *)
Theorem X3_reachable_caches_are_well_formed {L} (mc : Z) (ops : list (CacheOp L)) :
  0 <= mc ->
  Forall createsEmpty ops ->
  wellFormed (run (newCacheMap mc) ops)
  ∧ maxCache (run (newCacheMap (L:=L) mc) ops) = mc.
Proof.
  intros Hmc Hops. split; [|by rewrite run_maxCache].
  assert (Hgen : ∀ c : CacheMap L,
             0 <= maxCache c -> wellFormed c -> wellFormed (run c ops)).
  { induction Hops as [|op ops Hop Hops IH]; intros c Hc Hwf; simpl; [done|].
    apply IH; [by rewrite step_maxCache|by apply step_wellFormed]. }
  apply Hgen; [done|]. split; [apply newCacheMap_tick|].
  intros id ts th. unfold thumbAt. simpl. by rewrite lookup_empty.
Qed.

(** * Further facts about the index-backed source *)

Lemma joinPath_nonempty segs s : s ∈ segs -> s ≠ "" -> joinPath segs ≠ "".
Proof.
  induction segs as [|a rest IH]; intros Hin Hs; [by inversion Hin|].
  simpl. destruct (decide (a = "")) as [->|Ha].
  - apply IH; [|done]. apply elem_of_cons in Hin as [->|]; done.
  - destruct (joinPath rest); [done|]. by destruct a.
Qed.

Lemma bifPathOf_nonempty mp h p : Bif.bifPathOf mp h = Some p -> p ≠ "".
Proof.
  destruct h as [|c rest]; [done|]. unfold Bif.bifPathOf. intros Heq ->.
  apply (inj Some) in Heq. revert Heq.
  apply (joinPath_nonempty _ "Media"); [|done]. by repeat constructor.
Qed.

(** What the loop of [hasThumbnails] leaves in [newest]. *)
Lemma scanRows_newest {S} fs mp rows n0 (st : S) :
  Forall (fun row => hash row ≠ "") rows ->
  ∃ n1 ev,
    Bif.scanRows fs mp rows n0 st = (Resolved n1, st, ev)
    ∧ (∀ row p mt, row ∈ rows -> Bif.bifPathOf mp (hash row) = Some p ->
                   statSync fs p = Some mt -> mt <= Bif.n_mtime n1)
    ∧ Bif.n_mtime n0 <= Bif.n_mtime n1
    ∧ ((Bif.n_path n1 = Bif.n_path n0 ∧ Bif.n_mtime n1 = Bif.n_mtime n0)
       ∨ (∃ row, row ∈ rows
                 ∧ Bif.bifPathOf mp (hash row) = Some (Bif.n_path n1)
                 ∧ statSync fs (Bif.n_path n1) = Some (Bif.n_mtime n1)
                 ∧ Bif.n_mtime n0 < Bif.n_mtime n1)).
Proof.
  intros Hrows. revert n0. induction Hrows as [|row rows Hrow Hrows IH]; intros n0.
  - exists n0, []. split; [done|]. split; [|split; [lia|by left]].
    intros ? ? ? Hin. by inversion Hin.
  - simpl. destruct (Bif.bifPathOf mp (hash row)) as [p|] eqn:Hp.
    2:{ by destruct (hash row). }
    rewrite bind_emit.
    destruct (statSync fs p) as [mt|] eqn:Hstat.
    + destruct (Z.ltb_spec (Bif.n_mtime n0) mt) as [Hlt|Hge].
      * destruct (IH {| Bif.n_path := p; Bif.n_mtime := mt;
                        Bif.n_found := Bif.n_found n0 + 1 |})
          as (n1 & ev & -> & Hmax & Hmono & Hsel). simpl in *.
        exists n1, (StatSync p :: ev). split; [done|]. split; [|split; [lia|]].
        -- intros row' p' mt' Hin Hp' Hst'. apply elem_of_cons in Hin as [->|Hin].
           ++ rewrite Hp in Hp'. injection Hp' as <-. rewrite Hstat in Hst'.
              injection Hst' as <-. lia.
           ++ by eapply Hmax.
        -- right. destruct Hsel as [[Hpath Hmt]|(row' & Hin & Hp' & Hst' & Hlt')].
           ++ exists row. rewrite Hpath, Hmt. repeat split; first [done | lia | by constructor].
           ++ exists row'. repeat split; first [done | lia | by constructor].
      * destruct (IH {| Bif.n_path := Bif.n_path n0; Bif.n_mtime := Bif.n_mtime n0;
                        Bif.n_found := Bif.n_found n0 + 1 |})
          as (n1 & ev & -> & Hmax & Hmono & Hsel). simpl in *.
        exists n1, (StatSync p :: ev). split; [done|]. split; [|split; [lia|]].
        -- intros row' p' mt' Hin Hp' Hst'. apply elem_of_cons in Hin as [->|Hin].
           ++ rewrite Hp in Hp'. injection Hp' as <-. rewrite Hstat in Hst'.
              injection Hst' as <-. lia.
           ++ by eapply Hmax.
        -- destruct Hsel as [?|(row' & Hin & Hp' & Hst' & Hlt')]; [by left|].
           right. exists row'. repeat split; first [done | lia | by constructor].
    + destruct (IH n0) as (n1 & ev & -> & Hmax & Hmono & Hsel).
      exists n1, (StatSync p :: ev). split; [done|]. split; [|split; [lia|]].
      * intros row' p' mt' Hin Hp' Hst'. apply elem_of_cons in Hin as [->|Hin].
        -- rewrite Hp in Hp'. injection Hp' as <-. by rewrite Hstat in Hst'.
        -- by eapply Hmax.
      * destruct Hsel as [?|(row' & Hin & Hp' & Hst' & Hlt')]; [by left|].
        right. exists row'. repeat split; first [done | lia | by constructor].
Qed.

(** X4 (BifThumbnailManager.hasThumbnails, first call for an item).  When the
    item is not cached and the query returns rows with non-empty hashes, the
    call resolves and caches an item with no thumbnails and interval 0.  The
    answer is true exactly when some row's index file exists with a positive
    modification time; the cached path is then the path of a row whose file
    has the greatest modification time of all rows.  When the answer is
    false the cached path is the empty string. *)
Theorem X4_newest_index_file_is_selected fs id m rows :
  getItem (Bif.cache m) id = None ->
  hashQuery (Bif.database m) id = Some rows ->
  Forall (fun row => hash row ≠ "") rows ->
  ∃ b m1 ev item,
    Bif.hasThumbnails fs id m = (Resolved b, m1, ev)
    ∧ getItem (Bif.cache m1) id = Some item
    ∧ hasThumbs item = b
    ∧ cachedThumbnails item = ∅
    ∧ Bif.interval (locator item) = 0
    ∧ (b = true ↔
       ∃ row p mt, row ∈ rows ∧ Bif.bifPathOf (Bif.metadataPath m) (hash row) = Some p
                   ∧ statSync fs p = Some mt ∧ 0 < mt)
    ∧ (b = true ->
       ∃ row mt, row ∈ rows
         ∧ Bif.bifPathOf (Bif.metadataPath m) (hash row) = Some (Bif.bifPath (locator item))
         ∧ statSync fs (Bif.bifPath (locator item)) = Some mt
         ∧ ∀ row' p' mt', row' ∈ rows ->
             Bif.bifPathOf (Bif.metadataPath m) (hash row') = Some p' ->
             statSync fs p' = Some mt' -> mt' <= mt)
    ∧ (b = false -> Bif.bifPath (locator item) = "").
Proof.
  intros Hmiss Hq Hrows. unfold Bif.hasThumbnails. rewrite Hmiss.
  unfold Bif.dbAll, bind at 1. rewrite Hq.
  destruct (scanRows_newest fs (Bif.metadataPath m) rows Bif.newest0 m Hrows)
    as (n1 & ev & Hscan & Hmax & Hmono & Hsel). simpl in Hmono, Hsel.
  unfold bind at 1. rewrite Hscan.
  destruct (decide (Bif.n_path n1 ≠ "")) as [Hne|He]; repeat eff_step;
    unfold Bif.cacheAddItem, bind, ret, prepend.
  - destruct Hsel as [[Hp _]|(row & Hin & Hp & Hst & Hlt)]; [done|].
    eexists true, _, _, (Bif.newItem true (Bif.n_path n1)).
    split; [done|]. split; [apply lookup_insert_eq|].
    split; [done|]. split; [done|]. split; [done|]. split; [|split; [|done]].
    + split; [|done]. intros _. exists row, (Bif.n_path n1), (Bif.n_mtime n1). done.
    + intros _. exists row, (Bif.n_mtime n1). done.
  - eexists false, _, _, (Bif.newItem false "").
    split; [done|]. split; [apply lookup_insert_eq|].
    split; [done|]. split; [done|]. split; [done|]. split; [|split; [done|done]].
    split; [done|]. intros (row & p & mt & Hin & Hp & Hst & Hpos).
    destruct Hsel as [[_ Hmt]|(row' & _ & Hp' & _)].
    + specialize (Hmax _ _ _ Hin Hp Hst). lia.
    + apply bifPathOf_nonempty in Hp'. by destruct He.
Qed.

Lemma frameBounds_Some data maxIndex i s e :
  frameBounds data maxIndex i = Some (s, e) ->
  Bif.getOffset data i = Some s
  ∧ (if i =? maxIndex then Some (Z.of_nat (length data))
     else Bif.getOffset data (i + 1)) = Some e
  ∧ 0 <= s <= e ∧ e <= Z.of_nat (length data).
Proof.
  unfold frameBounds. destruct (Bif.getOffset data i) as [s'|]; [|done].
  destruct (if i =? maxIndex then _ else _) as [e'|]; [|done].
  destruct (Z.leb_spec 0 s'), (Z.leb_spec s' e'),
    (Z.leb_spec e' (Z.of_nat (length data))); simpl; try done.
  intros [= <- <-]. repeat split; done.
Qed.

Lemma discoverInterval_post data id m item iv m1 ev0 :
  getItem (Bif.cache m) id = Some item ->
  Bif.discoverInterval data id m = (Resolved iv, m1, ev0) ->
  getItem (Bif.cache m1) id
    = Some {| hasThumbs := hasThumbs item;
              cachedThumbnails := cachedThumbnails item;
              locator := {| Bif.bifPath := Bif.bifPath (locator item);
                            Bif.interval := iv |} |}
  ∧ maxCache (Bif.cache m1) = maxCache (Bif.cache m)
  ∧ (Bif.interval (locator item) ≠ 0 -> iv = Bif.interval (locator item) ∧ m1 = m)
  ∧ ∀ j u, thumbAt (Bif.cache m1) j u = thumbAt (Bif.cache m) j u.
Proof.
  intros Hit. unfold Bif.discoverInterval. rewrite Hit.
  destruct (Z.eqb_spec (Bif.interval (locator item)) 0) as [Hz|Hnz].
  - destruct (Bif.getTimestamp data 0) as [v|]; [|done]. eff_step.
    destruct (v =? 0); [|done].
    destruct (Bif.getTimestamp data 1) as [w|]; [|done]. repeat eff_step.
    intros H. injection H as <- <- _.
    split; [exact (withInterval_item m id _ item Hit)|].
    split; [done|]. split; [done|].
    intros j u. unfold thumbAt. simpl.
    destruct (decide (id = j)) as [->|Hne].
    + rewrite lookup_alter_eq. by destruct (cacheMap (Bif.cache m) !! j).
    + by rewrite lookup_alter_ne.
  - intros H. injection H as <- <- _. rewrite Hit.
    split; [by destruct item as [? ? []]|]. done.
Qed.

Lemma clampIndex_eq {S} index maxIndex (st : S) :
  ∃ ev, Bif.clampIndex index maxIndex st
        = (Resolved (if js_gt index maxIndex then Fin maxIndex
                     else if js_lt index 0 then Fin 0 else index), st, ev)
        ∧ List.forallb is_log ev = true.
Proof.
  unfold Bif.clampIndex. destruct (js_gt index maxIndex), (js_lt index 0);
    repeat eff_step; eexists; split; done.
Qed.

Lemma clampIndex_clamped iv t maxIndex :
  iv ≠ 0 ->
  (if js_gt (floorDiv t iv) maxIndex then Fin maxIndex
   else if js_lt (floorDiv t iv) 0 then Fin 0 else floorDiv t iv)
  = Fin (clamped maxIndex (t / iv)).
Proof.
  intros Hiv. unfold floorDiv, clamped. destruct (Z.eqb_spec iv 0); [done|]. simpl.
  by destruct (maxIndex <? t / iv), (t / iv <? 0).
Qed.

(** A fetch that reads frame [i] of the file. *)
Lemma bif_read_frame fs id t m item f iv m1 ev0 N i s e :
  getItem (Bif.cache m) id = Some item ->
  files fs !! Bif.bifPath (locator item) = Some f ->
  Bif.discoverInterval (contents f) id m = (Resolved iv, m1, ev0) ->
  readInt32LE (contents f) Bif.thumbnailCountOffset = Some N ->
  (if js_gt (floorDiv t iv) (N - 1) then Fin (N - 1)
   else if js_lt (floorDiv t iv) 0 then Fin 0 else floorDiv t iv) = Fin i ->
  frameBounds (contents f) (N - 1) i = Some (s, e) ->
  resolves (Bif.readThumbnail fs id t m) (byteRange (contents f) s e)
    (fun m2 =>
       thumbAt (Bif.cache m2) id i
         = Some {| data := byteRange (contents f) s e;
                   rank := maxCache (Bif.cache m) + 1 |}
       ∧ ∃ item2, getItem (Bif.cache m2) id = Some item2
                  ∧ hasThumbs item2 = hasThumbs item
                  ∧ locator item2 = {| Bif.bifPath := Bif.bifPath (locator item);
                                       Bif.interval := iv |}).
Proof.
  intros Hit Hf Hd Hc Hcl Hfb.
  destruct (frameBounds_Some _ _ _ _ _ Hfb) as (Hs & He & Hse & Hlen).
  destruct (discoverInterval_post _ _ _ _ _ _ _ Hit Hd) as (Hit1 & Hmc & _ & _).
  rewrite (bif_readThumbnail_file _ _ _ _ _ _ Hit Hf). apply resolves_prepend.
  rewrite (readCallback_parsed _ _ _ _ _ _ _ _ Hd Hc). apply resolves_prepend.
  destruct (clampIndex_eq (floorDiv t iv) (N - 1) m1) as (evc & Hce & _).
  rewrite Hcl in Hce. rewrite (bind_resolved _ _ _ _ _ _ Hce). cbv beta.
  apply resolves_prepend.
  assert (Hsome : is_Some (getItem (Bif.cache m1) id)) by (rewrite Hit1; eauto).
  destruct (extractFrame_ok (contents f) id i (N - 1) m1 s e Hsome Hs He Hse Hlen)
    as (m2 & ev2 & Hex & Hth & Hloc).
  exists m2, ev2. split; [done|]. rewrite <- Hmc. split; [done|].
  (* the item after the add *)
  unfold Bif.extractFrame in Hex.
  rewrite (bind_resolved _ _ _ _ _ _ (frameSpan_eq _ i (N - 1) m1 s e Hs He)) in Hex.
  cbv beta in Hex. simpl fst in Hex. simpl snd in Hex.
  rewrite prepend_nil, allocCopy_in_range in Hex by done.
  repeat (rewrite ?bind_some, ?bind_emit in Hex; cbv beta in Hex).
  unfold Bif.cacheAdd, bind in Hex.
  pose proof (step_item (Bif.cache m1) (OpAdd id i (byteRange (contents f) s e)) id _ Hit1)
    as (item2 & Hit2 & Hsame). simpl in Hit2.
  destruct (add (Bif.cache m1) id i (byteRange (contents f) s e)) as [c2 evA].
  simpl in Hex, Hit2. injection Hex as <- _.
  exists item2. split; [done|]. destruct Hsame as [H1 H2]; [by intros []|].
  done.
Qed.

Lemma byteRange_length buf lo hi :
  0 <= lo <= hi -> hi <= Z.of_nat (length buf) ->
  Z.of_nat (length (byteRange buf lo hi)) = hi - lo.
Proof.
  intros Hlo Hhi. unfold byteRange. rewrite length_take, length_drop. lia.
Qed.

Lemma clamped_range maxIndex q : 0 <= maxIndex -> 0 <= clamped maxIndex q <= maxIndex.
Proof.
  intros H. unfold clamped.
  destruct (Z.ltb_spec maxIndex q); [lia|]. destruct (Z.ltb_spec q 0); lia.
Qed.

Lemma clamped_in_range maxIndex q : 0 <= q <= maxIndex -> clamped maxIndex q = q.
Proof.
  intros H. unfold clamped.
  destruct (Z.ltb_spec maxIndex q); [lia|]. destruct (Z.ltb_spec q 0); lia.
Qed.

Lemma tryGet_hit_log {L} (c : CacheMap L) i t th :
  thumbAt c i t = Some th ->
  ∃ c' ev, tryGet c i t = (Some (data th), c', ev) ∧ List.forallb is_log ev = true.
Proof.
  unfold thumbAt, tryGet. destruct (cacheMap c !! i) as [it|]; simpl; [|done].
  intros ->. unfold touch. destruct (Z.eqb _ _); eauto.
Qed.

Lemma bif_setCache_id m : Bif.setCache m (Bif.cache m) = m.
Proof. by destruct m. Qed.

Lemma bif_core_miss fs id t m item :
  getItem (Bif.cache m) id = Some item ->
  hasThumbs item = true ->
  (Bif.interval (locator item) ≠ 0 ->
   thumbAt (Bif.cache m) id (t / Bif.interval (locator item)) = None) ->
  Bif.getThumbnailCore fs id t m = Bif.readThumbnail fs id t m.
Proof.
  intros Hit Hhas Hmiss. unfold Bif.getThumbnailCore. rewrite Hit, Hhas.
  destruct (Z.eqb_spec (Bif.interval (locator item)) 0) as [|Hnz]; [done|].
  unfold bind at 1, Bif.cacheTryGet. rewrite (tryGet_miss _ _ _ (Hmiss Hnz)).
  rewrite bif_setCache_id. by destruct (Bif.readThumbnail fs id t m) as [[? ?] ?].
Qed.

Lemma bif_core_hit fs id t m item th :
  getItem (Bif.cache m) id = Some item ->
  hasThumbs item = true ->
  Bif.interval (locator item) ≠ 0 ->
  thumbAt (Bif.cache m) id (t / Bif.interval (locator item)) = Some th ->
  ∃ m' ev, Bif.getThumbnailCore fs id t m = (Resolved (data th), m', ev)
           ∧ List.forallb is_log ev = true.
Proof.
  intros Hit Hhas Hnz Hth. unfold Bif.getThumbnailCore. rewrite Hit, Hhas.
  destruct (Z.eqb_spec (Bif.interval (locator item)) 0) as [|_]; [done|].
  destruct (tryGet_hit_log _ _ _ _ Hth) as (c' & ev & Htg & Hlog).
  assert (Hc : Bif.cacheTryGet id (t / Bif.interval (locator item)) m
               = (Resolved (Some (data th)), Bif.setCache m c', ev)).
  { unfold Bif.cacheTryGet. by rewrite Htg. }
  rewrite (bind_resolved _ _ _ _ _ _ Hc). cbv beta. eff_step. simpl.
  eexists _, _. split; [done|]. rewrite List.forallb_app, Hlog. done.
Qed.

Lemma bif_core_none fs id t m item :
  getItem (Bif.cache m) id = Some item ->
  hasThumbs item = false ->
  Bif.getThumbnailCore fs id t m
    = (Rejected (ServerError ("No thumbnails for " +:+ pretty id)), m, []).
Proof. intros Hit Hhas. unfold Bif.getThumbnailCore. by rewrite Hit, Hhas. Qed.

Lemma ff_core_none env id t w item :
  getItem (Ffmpeg.cache (Ffmpeg.mgr w)) id = Some item ->
  hasThumbs item = false ->
  Ffmpeg.getThumbnailCore env id t w
    = (Rejected (ServerError ("No thumbnails for " +:+ pretty id)), w, []).
Proof. intros Hit Hhas. unfold Ffmpeg.getThumbnailCore. by rewrite Hit, Hhas. Qed.

Lemma readInt32LE_short buf offset :
  Z.of_nat (length buf) < offset + 4 -> readInt32LE buf offset = None.
Proof.
  intros H. unfold readInt32LE.
  destruct (Z.leb_spec (offset + 4) (Z.of_nat (length buf))); [lia|].
  by rewrite andb_false_r.
Qed.

(** X5 (BifThumbnailManager.#readThumbnail on a well-formed file).  When the
    interval read from the file is not 0, the file declares N >= 1 frames
    and each of the index records 0..N-1 gives a slice inside the file
    (0 <= start <= end <= length), every requested second t resolves: the
    bytes are the slice of frame floor(t / interval) clamped into
    [0, N - 1], and their length is end - start. *)
Theorem X5_well_formed_index_serves_every_request fs id m item f iv m1 ev0 N :
  getItem (Bif.cache m) id = Some item ->
  files fs !! Bif.bifPath (locator item) = Some f ->
  Bif.discoverInterval (contents f) id m = (Resolved iv, m1, ev0) ->
  iv ≠ 0 ->
  readInt32LE (contents f) Bif.thumbnailCountOffset = Some N ->
  1 <= N ->
  (∀ i, 0 <= i < N -> is_Some (frameBounds (contents f) (N - 1) i)) ->
  ∀ t, ∃ s e,
    frameBounds (contents f) (N - 1) (clamped (N - 1) (t / iv)) = Some (s, e)
    ∧ (Bif.readThumbnail fs id t m).1.1 = Resolved (byteRange (contents f) s e)
    ∧ Z.of_nat (length (byteRange (contents f) s e)) = e - s.
Proof.
  intros Hit Hf Hd Hiv Hc HN Hwf t.
  pose proof (clamped_range (N - 1) (t / iv)) as Hr.
  destruct (Hwf (clamped (N - 1) (t / iv))) as [[s e] Hfb]; [lia|].
  exists s, e. split; [done|].
  destruct (frameBounds_Some _ _ _ _ _ Hfb) as (_ & _ & Hse & Hlen).
  split; [|by apply byteRange_length].
  destruct (bif_read_frame fs id t m item f iv m1 ev0 N _ s e Hit Hf Hd Hc
              (clampIndex_clamped iv t (N - 1) Hiv) Hfb) as (m2 & ev & -> & _).
  done.
Qed.

(** X6 (BifThumbnailManager.getThumbnail, second fetch).  After a fetch that
    missed the in-memory cache and read an in-range frame from the file, any
    later fetch whose timestamp falls on the same frame index resolves with
    the same bytes whatever the disk holds by then, and does nothing but
    logging: no file is read and no query is made. *)
Theorem X6_repeated_fetch_is_served_from_memory fs id ts m item f iv m1 ev0 N s e :
  getItem (Bif.cache m) id = Some item ->
  hasThumbs item = true ->
  files fs !! Bif.bifPath (locator item) = Some f ->
  Bif.discoverInterval (contents f) id m = (Resolved iv, m1, ev0) ->
  iv ≠ 0 ->
  readInt32LE (contents f) Bif.thumbnailCountOffset = Some N ->
  0 <= ts / 1000 / iv <= N - 1 ->
  frameBounds (contents f) (N - 1) (ts / 1000 / iv) = Some (s, e) ->
  thumbAt (Bif.cache m) id (ts / 1000 / iv) = None ->
  ∃ m2 ev,
    Bif.getThumbnail fs id ts m = (Resolved (byteRange (contents f) s e), m2, ev)
    ∧ ∀ fs' ts', ts' / 1000 / iv = ts / 1000 / iv ->
        ∃ m3 ev',
          Bif.getThumbnail fs' id ts' m2 = (Resolved (byteRange (contents f) s e), m3, ev')
          ∧ List.forallb is_log ev' = true.
Proof.
  intros Hit Hhas Hf Hd Hiv Hc Hrange Hfb Hmiss.
  destruct (discoverInterval_post _ _ _ _ _ _ _ Hit Hd) as (_ & _ & Hknown & _).
  unfold Bif.getThumbnail. rewrite Hit.
  rewrite (bif_core_miss _ _ _ _ _ Hit Hhas).
  2:{ intros Hnz. destruct (Hknown Hnz) as [<- _]. done. }
  assert (Hcl : (if js_gt (floorDiv (ts / 1000) iv) (N - 1) then Fin (N - 1)
                 else if js_lt (floorDiv (ts / 1000) iv) 0 then Fin 0
                      else floorDiv (ts / 1000) iv) = Fin (ts / 1000 / iv)).
  { rewrite (clampIndex_clamped iv _ (N - 1) Hiv). by rewrite clamped_in_range. }
  destruct (bif_read_frame fs id (ts / 1000) m item f iv m1 ev0 N _ s e Hit Hf Hd Hc Hcl Hfb)
    as (m2 & ev & Hread & Hth & item2 & Hit2 & Hhas2 & Hloc2).
  exists m2, ev. split; [done|].
  intros fs' ts' Hsame. rewrite Hit2.
  assert (Hiv2 : Bif.interval (locator item2) = iv) by by rewrite Hloc2.
  destruct (bif_core_hit fs' id (ts' / 1000) m2 item2
              {| data := byteRange (contents f) s e;
                 rank := maxCache (Bif.cache m) + 1 |} Hit2)
    as (m3 & ev' & Hhit & Hlog).
  - by rewrite Hhas2.
  - by rewrite Hiv2.
  - rewrite Hiv2, Hsame. exact Hth.
  - exists m3, ev'. by rewrite Hhit.
Qed.

Lemma prepend_snd {S A} ev (r : outcome A * S * list Event) :
  (prepend ev r).2 = ev ++ r.2.
Proof. by destruct r as [[? ?] ?]. Qed.

Lemma scanRows_events {S} fs mp rows n (st : S) :
  List.forallb is_check (Bif.scanRows fs mp rows n st).2 = true.
Proof.
  revert n. induction rows as [|row rows IH]; intros n; simpl; [done|].
  destruct (Bif.bifPathOf mp (hash row)); [|done].
  rewrite bind_emit, prepend_snd. simpl. apply IH.
Qed.

Lemma findFile_events rows w :
  List.forallb is_check (Ffmpeg.findFile rows w).2 = true.
Proof.
  induction rows as [|row rows IH]; simpl; [done|].
  rewrite bind_emit, prepend_snd. simpl.
  by destruct (existsSync (Ffmpeg.fs w) (file row)).
Qed.

Lemma bif_hasThumbnails_events fs id m :
  List.forallb is_check (Bif.hasThumbnails fs id m).2 = true.
Proof.
  unfold Bif.hasThumbnails. destruct (getItem (Bif.cache m) id); [done|].
  unfold Bif.dbAll, bind at 1.
  destruct (hashQuery (Bif.database m) id) as [rows|]; [|done].
  pose proof (scanRows_events fs (Bif.metadataPath m) rows Bif.newest0 m) as Hev.
  unfold bind at 1.
  destruct (Bif.scanRows fs (Bif.metadataPath m) rows Bif.newest0 m) as [[[n|e|e] st] ev];
    simpl in Hev; try done.
  destruct (decide (Bif.n_path n ≠ "")); repeat eff_step;
    unfold Bif.cacheAddItem, bind, ret, prepend; simpl;
    by rewrite List.forallb_app, Hev.
Qed.

Lemma ff_hasThumbnails_events id w :
  List.forallb is_check (Ffmpeg.hasThumbnails id w).2 = true.
Proof.
  unfold Ffmpeg.hasThumbnails. destruct (getItem (Ffmpeg.cache (Ffmpeg.mgr w)) id); [done|].
  unfold Ffmpeg.dbAll, bind at 1.
  destruct (fileQuery (Ffmpeg.database (Ffmpeg.mgr w)) id) as [rows|]; [|done].
  pose proof (findFile_events rows w) as Hev.
  unfold bind at 1.
  destruct (Ffmpeg.findFile rows w) as [[[[row|]|e|e] st] ev]; simpl in Hev; try done;
    repeat eff_step; unfold Ffmpeg.cacheAddItem, bind, ret, prepend; simpl;
    by rewrite List.forallb_app, Hev.
Qed.

(** X7 (getThumbnail for an item without thumbnails, either backend).  When
    hasThumbnails resolves with false, getThumbnail on the same manager
    rejects with the ServerError 'No thumbnails for <id>' and leaves the
    manager as hasThumbnails leaves it; its only effects are those of the
    existence check (query, stat or exists probes, logging).  A further
    getThumbnail rejects the same way with no effect at all. *)
Theorem X7_fetch_without_source_rejects env id ts fs b fs1 b1 ev1 :
  ThumbnailManager.hasThumbnails id (fs, b) = (Resolved false, (fs1, b1), ev1) ->
  ThumbnailManager.getThumbnail env id ts (fs, b)
    = (Rejected (ServerError ("No thumbnails for " +:+ pretty id)), (fs1, b1), ev1)
  ∧ ThumbnailManager.getThumbnail env id ts (fs1, b1)
    = (Rejected (ServerError ("No thumbnails for " +:+ pretty id)), (fs1, b1), [])
  ∧ List.forallb is_check ev1 = true.
Proof.
  unfold ThumbnailManager.hasThumbnails, ThumbnailManager.getThumbnail.
  destruct b as [m|m].
  - pose proof (bif_hasThumbnails_events fs id m) as Hev.
    destruct (Bif.hasThumbnails fs id m) as [[o m1] ev] eqn:H.
    intros Heq. injection Heq as -> <- <- <-.
    destruct (bif_hasThumbnails_spec _ _ _ _ _ _ H) as [(it & Hit & Hb) _].
    rewrite (bif_getThumbnail_via _ _ ts _ _ _ _ H).
    rewrite (bif_core_none _ _ _ _ _ Hit Hb). simpl. rewrite app_nil_r.
    split; [done|]. split; [|done].
    unfold Bif.getThumbnail. rewrite Hit.
    by rewrite (bif_core_none _ _ _ _ _ Hit Hb).
  - pose proof (ff_hasThumbnails_events id {| Ffmpeg.fs := fs; Ffmpeg.mgr := m |}) as Hev.
    destruct (Ffmpeg.hasThumbnails id _) as [[o w1] ev] eqn:H.
    intros Heq. injection Heq as -> <- <- <-.
    destruct (ff_hasThumbnails_spec _ _ _ _ _ H) as ((it & Hit & Hb) & Hfs & _).
    rewrite (ff_getThumbnail_via env _ ts _ _ _ _ H).
    rewrite (ff_core_none _ _ _ _ _ Hit Hb). simpl. rewrite app_nil_r.
    split; [done|]. split; [|done].
    assert (Hw : {| Ffmpeg.fs := Ffmpeg.fs w1; Ffmpeg.mgr := Ffmpeg.mgr w1 |} = w1)
      by by destruct w1.
    rewrite Hw, (ff_getThumbnail_cached _ _ _ _ _ Hit).
    by rewrite (ff_core_none _ _ _ _ _ Hit Hb).
Qed.

(** X8 (BifThumbnailManager.getThumbnail, unreadable and truncated files).
    For a cached item with thumbnails whose interval is not yet known: if the
    index file cannot be read, the fetch rejects with 'Failed to read
    thumbnail file'; if the file is shorter than 0x44 bytes, the read of the
    first timestamp throws a RangeError inside the readFile callback, which
    nothing catches.  In both cases the manager is unchanged and the file
    read is the only effect. *)
Theorem X8_unreadable_or_truncated_index fs id ts m item :
  getItem (Bif.cache m) id = Some item ->
  hasThumbs item = true ->
  Bif.interval (locator item) = 0 ->
  (files fs !! Bif.bifPath (locator item) = None ->
   Bif.getThumbnail fs id ts m
     = (Rejected (RejectReason "Failed to read thumbnail file"), m,
        [ReadFile (Bif.bifPath (locator item))]))
  ∧ (∀ f, files fs !! Bif.bifPath (locator item) = Some f ->
          Z.of_nat (length (contents f)) < 0x44 ->
          Bif.getThumbnail fs id ts m
            = (Uncaught RangeError, m, [ReadFile (Bif.bifPath (locator item))])).
Proof.
  intros Hit Hhas Hiv. unfold Bif.getThumbnail. rewrite Hit.
  rewrite (bif_core_first _ _ _ _ _ Hit Hhas Hiv). split.
  - intros Hf. unfold Bif.readThumbnail. rewrite Hit, bind_emit. by rewrite Hf.
  - intros f Hf Hlen. rewrite (bif_readThumbnail_file _ _ _ _ _ _ Hit Hf).
    unfold Bif.readCallback, bind at 1, Bif.discoverInterval.
    rewrite Hit, Hiv. simpl. unfold Bif.getTimestamp.
    rewrite readInt32LE_short; [done|]. unfold Bif.indexTableStart, Bif.recordSize. lia.
Qed.

(** * Further facts about the on-demand source *)

Lemma ff_setCache_id w : Ffmpeg.setCache w (Ffmpeg.cache (Ffmpeg.mgr w)) = w.
Proof. by destruct w as [? []]. Qed.

Lemma add_events_log {L} (c : CacheMap L) i t buf :
  List.forallb is_log (add c i t buf).2 = true.
Proof.
  unfold add. destruct (cacheMap c !! i); [|done].
  unfold touch. by destruct (_ =? _).
Qed.

Lemma add_maxCache {L} (c : CacheMap L) i t buf :
  maxCache (add c i t buf).1 = maxCache c.
Proof. apply (step_maxCache c (OpAdd i t buf)). Qed.

(** What [this.#cache.add] leaves behind when the item exists. *)
Lemma ff_cacheAdd_post id t buf w item :
  getItem (Ffmpeg.cache (Ffmpeg.mgr w)) id = Some item ->
  ∃ w' ev item',
    Ffmpeg.cacheAdd id t buf w = (Resolved tt, w', ev)
    ∧ Ffmpeg.fs w' = Ffmpeg.fs w
    ∧ thumbAt (Ffmpeg.cache (Ffmpeg.mgr w')) id t
      = Some {| data := buf; rank := maxCache (Ffmpeg.cache (Ffmpeg.mgr w)) + 1 |}
    ∧ getItem (Ffmpeg.cache (Ffmpeg.mgr w')) id = Some item'
    ∧ hasThumbs item' = hasThumbs item
    ∧ locator item' = locator item
    ∧ maxCache (Ffmpeg.cache (Ffmpeg.mgr w')) = maxCache (Ffmpeg.cache (Ffmpeg.mgr w))
    ∧ execArgs ev = []
    ∧ List.forallb is_log ev = true.
Proof.
  intros Hit. unfold Ffmpeg.cacheAdd.
  pose proof (add_thumbAt_self (Ffmpeg.cache (Ffmpeg.mgr w)) id t buf) as Hth.
  pose proof (step_item (Ffmpeg.cache (Ffmpeg.mgr w)) (OpAdd id t buf) id item Hit)
    as (item' & Hit' & Hsame).
  pose proof (add_events (Ffmpeg.cache (Ffmpeg.mgr w)) id t buf) as [Hex _].
  pose proof (add_events_log (Ffmpeg.cache (Ffmpeg.mgr w)) id t buf) as Hlog.
  pose proof (add_maxCache (Ffmpeg.cache (Ffmpeg.mgr w)) id t buf) as Hmc.
  simpl in Hit'. destruct (add _ _ _ _) as [c ev]. simpl in *.
  destruct Hsame as [H1 H2]; [by intros []|].
  eexists _, ev, item'. split; [done|]. simpl.
  repeat split; try done. apply Hth. unfold getItem in Hit. rewrite Hit. eauto.
Qed.

Lemma ff_store_resolved id t w item (data : list byte) (o : outcome (list byte)) w1 ev1
    (msg : string) :
  getItem (Ffmpeg.cache (Ffmpeg.mgr w)) id = Some item ->
  bind (Ffmpeg.cacheAdd id t data)
       (fun _ => bind (emit (Logged Tmi msg)) (fun _ => ret data)) w = (o, w1, ev1) ->
  o = Resolved data ∧ holds id t data item w1 ∧ Ffmpeg.fs w1 = Ffmpeg.fs w
  ∧ execArgs ev1 = [].
Proof.
  intros Hit.
  destruct (ff_cacheAdd_post id t data w item Hit)
    as (w' & ev & item' & Ha & Hfs & Hth & Hit' & Hh & Hl & _ & Hex & _).
  rewrite (bind_resolved _ _ _ _ _ _ Ha). cbv beta. repeat eff_step. simpl.
  intros [= <- <- <-]. split; [done|]. split; [|split; [done|]].
  - split; eauto.
  - by rewrite execArgs_app, Hex.
Qed.

Lemma ff_generate_resolved env id t w item buf w1 ev1 :
  getItem (Ffmpeg.cache (Ffmpeg.mgr w)) id = Some item ->
  Ffmpeg.fileCacheOrGenerate env id t w = (Resolved buf, w1, ev1) ->
  holds id t buf item w1.
Proof.
  intros Hit. unfold Ffmpeg.fileCacheOrGenerate. rewrite bind_emit.
  destruct (existsSync (Ffmpeg.fs w) (Ffmpeg.saveFile env id t)) eqn:Hex.
  - eff_step. pose proof (readFileSync_eq (Ffmpeg.saveFile env id t) w) as Hr.
    destruct (files (Ffmpeg.fs w) !! Ffmpeg.saveFile env id t) as [f|].
    + rewrite (bind_resolved _ _ _ _ _ _ Hr). cbv beta.
      destruct (ff_cacheAdd_post id t (contents f) w item Hit)
        as (w' & ev & item' & Ha' & _ & Hth & Hit' & Hh & Hl & _).
      rewrite (bind_resolved _ _ _ _ _ _ Ha'). cbv beta. unfold ret. simpl.
      intros [= <- <- _]. split; eauto.
    + unfold bind at 1. rewrite Hr. done.
  - rewrite (bind_resolved _ _ _ _ _ _ (mkdirSync_eq env id w)). cbv beta.
    rewrite afterMkdir_mgr, Hit.
    pose proof (execFileSync_eq env (ffArgs env id t item) (afterMkdir env id w)) as He.
    change {| arg_ss := t; arg_input := Ffmpeg.filePath (locator item);
              arg_output := Ffmpeg.saveFile env id t |} with (ffArgs env id t item).
    assert (Hit1 : getItem (Ffmpeg.cache (Ffmpeg.mgr
                     (afterExec env (ffArgs env id t item) (afterMkdir env id w)))) id
                   = Some item) by by rewrite afterExec_mgr, afterMkdir_mgr.
    set (wx := afterExec env (ffArgs env id t item) (afterMkdir env id w)) in *.
    destruct (Ffmpeg.exit (Ffmpeg.ffmpeg env (ffArgs env id t item))) as [[|?|?]|];
      try (unfold bind at 1; rewrite He; done).
    rewrite (bind_resolved _ _ _ _ _ _ He). cbv beta.
    pose proof (readFileSync_eq (Ffmpeg.saveFile env id t) wx) as Hr.
    destruct (files (Ffmpeg.fs wx) !! Ffmpeg.saveFile env id t) as [f|].
    + rewrite (bind_resolved _ _ _ _ _ _ Hr). cbv beta.
      destruct (bind (Ffmpeg.cacheAdd id t (contents f)) _ wx) as [[o wa] eva] eqn:Hs.
      destruct (ff_store_resolved _ _ _ _ _ _ _ _ _ Hit1 Hs) as (-> & Hholds & _).
      simpl. by intros [= <- <- _].
    + unfold bind at 1. rewrite Hr. done.
Qed.

Lemma ff_core_resolved env id ts w item buf w1 ev1 :
  getItem (Ffmpeg.cache (Ffmpeg.mgr w)) id = Some item ->
  maxTick <= maxCache (Ffmpeg.cache (Ffmpeg.mgr w)) ->
  Ffmpeg.getThumbnailCore env id ts w = (Resolved buf, w1, ev1) ->
  hasThumbs item = true
  ∧ holds id (Ffmpeg.effectiveTimestamp (Ffmpeg.duration (locator item)) ts) buf item w1.
Proof.
  intros Hit Hmc Hres.
  destruct (hasThumbs item) eqn:Hhas.
  2:{ by rewrite (ff_core_none _ _ _ _ _ Hit Hhas) in Hres. }
  split; [done|].
  set (t := Ffmpeg.effectiveTimestamp (Ffmpeg.duration (locator item)) ts) in *.
  destruct (cachedThumbnails item !! t) as [th|] eqn:Hth.
  - rewrite (ff_core_unfold _ _ _ _ _ Hit Hhas) in Hres. fold t in Hres.
    assert (Hat : thumbAt (Ffmpeg.cache (Ffmpeg.mgr w)) id t = Some th).
    { unfold thumbAt. unfold getItem in Hit. by rewrite Hit. }
    pose proof (tryGet_result (Ffmpeg.cache (Ffmpeg.mgr w)) id t) as Hr.
    pose proof (tryGet_state (Ffmpeg.cache (Ffmpeg.mgr w)) id t) as Hs.
    pose proof (step_item (Ffmpeg.cache (Ffmpeg.mgr w)) (OpTryGet id t) id item Hit)
      as (item' & Hit' & Hsame).
    rewrite Hat in Hr, Hs. simpl in Hit'.
    unfold bind at 1, Ffmpeg.cacheTryGet in Hres.
    destruct (tryGet (Ffmpeg.cache (Ffmpeg.mgr w)) id t) as [[r c'] evt].
    simpl in Hr, Hs, Hit'. subst r. rewrite bind_emit in Hres. simpl in Hres.
    injection Hres as <- <- _. split.
    + simpl. rewrite Hs, touch_thumbAt.
      rewrite setThumb_thumbAt_eq by (unfold getItem in Hit; rewrite Hit; eauto).
      change (tick (setThumb ?c _ _ _)) with (tick c).
      destruct (_ =? _); [|eauto]. simpl. unfold decay. simpl.
      unfold maxTick in *.
      destruct (Z.leb_spec (maxCache (Ffmpeg.cache (Ffmpeg.mgr w)) + 1 - 20) 0); [lia|].
      eauto.
    + exists item'. simpl. destruct Hsame as [? ?]; [by intros []|]. done.
  - rewrite (ff_core_miss _ _ _ _ _ Hit Hhas Hth) in Hres.
    by eapply ff_generate_resolved.
Qed.

(** X9 (FfmpegThumbnailManager.getThumbnail, second fetch).  With an
    in-memory capacity of at least 20, after a fetch of an item that resolved
    with some bytes, any later fetch of a timestamp in the same 100 ms
    bucket resolves with the same bytes whatever the subprocess would do,
    without touching the disk: its only effects are log lines. *)
Theorem X9_same_bucket_is_served_from_memory env id ts w item buf w1 ev1 :
  getItem (Ffmpeg.cache (Ffmpeg.mgr w)) id = Some item ->
  maxTick <= maxCache (Ffmpeg.cache (Ffmpeg.mgr w)) ->
  Ffmpeg.getThumbnail env id ts w = (Resolved buf, w1, ev1) ->
  ∀ env' ts',
    ts' / 100 = ts / 100 ->
    ∃ w2 ev2,
      Ffmpeg.getThumbnail env' id ts' w1 = (Resolved buf, w2, ev2)
      ∧ List.forallb is_log ev2 = true
      ∧ Ffmpeg.fs w2 = Ffmpeg.fs w1.
Proof.
  intros Hit Hmc Hres env' ts' Hbucket.
  rewrite (ff_getThumbnail_cached _ _ _ _ _ Hit) in Hres.
  destruct (ff_core_resolved _ _ _ _ _ _ _ _ Hit Hmc Hres)
    as (Hhas & (th & Hth & Hdata) & item' & Hit' & Hhas' & Hloc').
  rewrite (ff_getThumbnail_cached _ _ _ _ _ Hit').
  rewrite (ff_core_unfold _ _ _ _ _ Hit') by by rewrite Hhas'.
  assert (Ht : Ffmpeg.effectiveTimestamp (Ffmpeg.duration (locator item')) ts'
               = Ffmpeg.effectiveTimestamp (Ffmpeg.duration (locator item)) ts).
  { unfold Ffmpeg.effectiveTimestamp. by rewrite Hloc', Hbucket. }
  rewrite Ht.
  destruct (tryGet_hit_log _ _ _ _ Hth) as (c' & ev & Htg & Hlog).
  assert (Hc : Ffmpeg.cacheTryGet id
                 (Ffmpeg.effectiveTimestamp (Ffmpeg.duration (locator item)) ts) w1
               = (Resolved (Some (data th)), Ffmpeg.setCache w1 c', ev)).
  { unfold Ffmpeg.cacheTryGet. by rewrite Htg. }
  rewrite (bind_resolved _ _ _ _ _ _ Hc). cbv beta. eff_step. simpl.
  eexists _, _. rewrite Hdata. split; [done|]. split; [|done].
  by rewrite List.forallb_app, Hlog.
Qed.

Lemma execArgs_cons e l :
  execArgs (e :: l)
    = match e with ExecFfmpeg a => a :: execArgs l | _ => execArgs l end.
Proof. by destruct e. Qed.

(** X10 (FfmpegThumbnailManager.#fileCacheOrGenerate, successful run).  When
    both caches miss and the subprocess exits with code 0: if it wrote the
    output file, the fetch resolves with that file's bytes after exactly one
    subprocess run, the file is at the cache path and the in-memory cache
    holds the bytes at rank maxCache + 1; if it wrote nothing, reading the
    output file fails, the fetch rejects with that error and neither cache
    gains an entry. *)
Theorem X10_generation_stores_in_both_tiers env id ts w item t args :
  getItem (Ffmpeg.cache (Ffmpeg.mgr w)) id = Some item ->
  hasThumbs item = true ->
  t = Ffmpeg.effectiveTimestamp (Ffmpeg.duration (locator item)) ts ->
  args = {| arg_ss := t;
            arg_input := Ffmpeg.filePath (locator item);
            arg_output := Ffmpeg.saveFile env id t |} ->
  cachedThumbnails item !! t = None ->
  existsSync (Ffmpeg.fs w) (Ffmpeg.saveFile env id t) = false ->
  Ffmpeg.exit (Ffmpeg.ffmpeg env args) = Ffmpeg.Exited 0 ->
  (∀ f, Ffmpeg.written (Ffmpeg.ffmpeg env args) = Some f ->
     ∃ w' ev,
       Ffmpeg.getThumbnail env id ts w = (Resolved (contents f), w', ev)
       ∧ execArgs ev = [args]
       ∧ files (Ffmpeg.fs w') !! Ffmpeg.saveFile env id t = Some f
       ∧ thumbAt (Ffmpeg.cache (Ffmpeg.mgr w')) id t
         = Some {| data := contents f;
                   rank := maxCache (Ffmpeg.cache (Ffmpeg.mgr w)) + 1 |})
  ∧ (Ffmpeg.written (Ffmpeg.ffmpeg env args) = None ->
     ∃ w' ev,
       Ffmpeg.getThumbnail env id ts w
         = (Rejected (ENOENT (Ffmpeg.saveFile env id t)), w', ev)
       ∧ execArgs ev = [args]
       ∧ Ffmpeg.mgr w' = Ffmpeg.mgr w
       ∧ files (Ffmpeg.fs w') = files (Ffmpeg.fs w)).
Proof.
  intros Hit Hhas -> -> Hmiss Hex Hok.
  set (t := Ffmpeg.effectiveTimestamp _ _) in *.
  set (args := {| arg_ss := t |}) in *.
  assert (Habsent : files (Ffmpeg.fs w) !! Ffmpeg.saveFile env id t = None).
  { unfold existsSync in Hex. apply orb_false_iff in Hex as [Hex _].
    apply bool_decide_eq_false in Hex.
    destruct (files _ !! _); [|done]. destruct Hex; eauto. }
  rewrite (ff_getThumbnail_cached _ _ _ _ _ Hit).
  rewrite (ff_core_miss _ _ _ _ _ Hit Hhas Hmiss).
  fold t. rewrite (ff_generate_unfold _ _ _ _ _ Hit Hex).
  change (ffArgs env id t item) with args.
  pose proof (execFileSync_eq env args (afterMkdir env id w)) as He.
  rewrite Hok in He.
  rewrite (bind_resolved _ _ _ _ _ _ He). cbv beta.
  set (wx := afterExec env args (afterMkdir env id w)).
  assert (Hmgr : Ffmpeg.mgr wx = Ffmpeg.mgr w)
    by (unfold wx; by rewrite afterExec_mgr, afterMkdir_mgr).
  assert (Hfiles : files (Ffmpeg.fs wx)
                   = match Ffmpeg.written (Ffmpeg.ffmpeg env args) with
                     | Some f => <[Ffmpeg.saveFile env id t := f]> (files (Ffmpeg.fs w))
                     | None => files (Ffmpeg.fs w)
                     end)
    by (unfold wx; by rewrite afterExec_files, afterMkdir_files).
  pose proof (readFileSync_eq (Ffmpeg.saveFile env id t) wx) as Hr.
  split.
  - intros f Hw. rewrite Hw in Hfiles. rewrite Hfiles, lookup_insert_eq in Hr.
    rewrite (bind_resolved _ _ _ _ _ _ Hr). cbv beta.
    assert (Hitx : getItem (Ffmpeg.cache (Ffmpeg.mgr wx)) id = Some item)
      by by rewrite Hmgr.
    destruct (ff_cacheAdd_post id t (contents f) wx item Hitx)
      as (w' & ev & item' & Ha & Hfs & Hth & _ & _ & _ & _ & Hexec & _).
    rewrite (bind_resolved _ _ _ _ _ _ Ha). cbv beta. repeat eff_step. simpl.
    eexists _, _. split; [done|]. split; [|split].
    + by rewrite !execArgs_cons, execArgs_app, Hexec.
    + by rewrite Hfs, Hfiles, lookup_insert_eq.
    + by rewrite Hth, Hmgr.
  - intros Hw. rewrite Hw in Hfiles. rewrite Hfiles, Habsent in Hr.
    unfold bind at 1. rewrite Hr. simpl.
    eexists _, _. split; [done|]. split; [done|]. split; done.
Qed.

(** The first row whose file exists. *)
Lemma findFile_find rows w :
  ∃ ev, Ffmpeg.findFile rows w
        = (Resolved (List.find (fun row => existsSync (Ffmpeg.fs w) (file row)) rows), w, ev).
Proof.
  induction rows as [|row rows IH]; simpl.
  - by exists [].
  - rewrite bind_emit. destruct (existsSync (Ffmpeg.fs w) (file row)).
    + by eexists.
    + destruct IH as (ev & ->). by eexists.
Qed.

Lemma find_first {A} (P : A -> bool) l x :
  List.find P l = Some x ->
  ∃ pre post, l = pre ++ x :: post ∧ P x = true ∧ Forall (fun y => P y = false) pre.
Proof.
  induction l as [|a l IH]; simpl; [done|].
  destruct (P a) eqn:Ha.
  - intros [= <-]. by exists [], l.
  - intros Hf. destruct (IH Hf) as (pre & post & -> & Hx & Hpre).
    exists (a :: pre), post. split; [done|]. split; [done|]. by constructor.
Qed.

Lemma find_none {A} (P : A -> bool) l :
  List.find P l = None -> Forall (fun y => P y = false) l.
Proof.
  induction l as [|a l IH]; simpl; [by constructor|].
  destruct (P a) eqn:Ha; [done|]. intros Hf. constructor; auto.
Qed.

(** X11 (FfmpegThumbnailManager.hasThumbnails, first call for an item).
    When the item is not cached and the query returns rows, the call
    resolves without changing the disk and caches an item with no
    thumbnails.  The answer is true exactly when some row's file exists, and
    the cached path and duration are those of the first such row in query
    order; otherwise no row's file exists and the cached path is empty with
    duration 0. *)
Theorem X11_first_existing_file_is_selected id w rows :
  getItem (Ffmpeg.cache (Ffmpeg.mgr w)) id = None ->
  fileQuery (Ffmpeg.database (Ffmpeg.mgr w)) id = Some rows ->
  ∃ b w1 ev item,
    Ffmpeg.hasThumbnails id w = (Resolved b, w1, ev)
    ∧ Ffmpeg.fs w1 = Ffmpeg.fs w
    ∧ getItem (Ffmpeg.cache (Ffmpeg.mgr w1)) id = Some item
    ∧ hasThumbs item = b
    ∧ cachedThumbnails item = ∅
    ∧ (b = true ->
       ∃ pre row post,
         rows = pre ++ row :: post
         ∧ existsSync (Ffmpeg.fs w) (file row) = true
         ∧ Forall (fun r => existsSync (Ffmpeg.fs w) (file r) = false) pre
         ∧ Ffmpeg.filePath (locator item) = file row
         ∧ Ffmpeg.duration (locator item) = row_duration row)
    ∧ (b = false ->
       Forall (fun r => existsSync (Ffmpeg.fs w) (file r) = false) rows
       ∧ locator item = {| Ffmpeg.filePath := ""; Ffmpeg.duration := 0 |}).
Proof.
  intros Hmiss Hq. unfold Ffmpeg.hasThumbnails. rewrite Hmiss.
  unfold Ffmpeg.dbAll, bind at 1. rewrite Hq.
  destruct (findFile_find rows w) as (ev & Hfind).
  unfold bind at 1. rewrite Hfind.
  destruct (List.find _ rows) as [row|] eqn:Hf; repeat eff_step;
    unfold Ffmpeg.cacheAddItem, bind, ret, prepend.
  - destruct (find_first _ _ _ Hf) as (pre & post & Hrows & Hrow & Hpre).
    eexists true, _, _, (Ffmpeg.newItem true (file row) (row_duration row)).
    split; [done|]. split; [done|]. split; [apply lookup_insert_eq|].
    split; [done|]. split; [done|]. split; [|done].
    intros _. by exists pre, row, post.
  - eexists false, _, _, (Ffmpeg.newItem false "" 0).
    split; [done|]. split; [done|]. split; [apply lookup_insert_eq|].
    split; [done|]. split; [done|]. split; [done|].
    intros _. split; [|done]. by apply find_none.
Qed.

(** X12 (the timestamp FfmpegThumbnailManager.#getThumbnailCore uses).  The
    effective timestamp is at most duration - 1000 and at most the requested
    timestamp.  When the clamp does not apply it is the requested timestamp
    rounded down to a multiple of 100, less than 100 ms below the request.
    For a file shorter than one second and a non-negative request it is
    duration - 1000, a negative seek position. *)
Theorem X12_effective_timestamp_bounds maxDuration ts :
  Ffmpeg.effectiveTimestamp maxDuration ts <= maxDuration - 1000
  ∧ Ffmpeg.effectiveTimestamp maxDuration ts <= ts
  ∧ (ts / 100 * 100 <= maxDuration - 1000 ->
     Ffmpeg.effectiveTimestamp maxDuration ts = ts / 100 * 100
     ∧ ts - 100 < Ffmpeg.effectiveTimestamp maxDuration ts
     ∧ Ffmpeg.effectiveTimestamp maxDuration ts mod 100 = 0)
  ∧ (maxDuration < 1000 -> 0 <= ts ->
     Ffmpeg.effectiveTimestamp maxDuration ts = maxDuration - 1000
     ∧ Ffmpeg.effectiveTimestamp maxDuration ts < 0).
Proof.
  unfold Ffmpeg.effectiveTimestamp.
  pose proof (Z.mul_div_le ts 100 ltac:(lia)) as H1.
  pose proof (Z.mod_pos_bound ts 100 ltac:(lia)) as H2.
  pose proof (Z.div_mod ts 100 ltac:(lia)) as H3.
  repeat split; try lia.
  - rewrite Z.min_r by lia. apply Z.mod_mul. lia.
Qed.

(** ** Paths of the disk cache *)

Lemma string_app_cons x (a b : string) : String x a +:+ b = String x (a +:+ b).
Proof. done. Qed.

Lemma string_app_assoc (a b c : string) : (a +:+ b) +:+ c = a +:+ (b +:+ c).
Proof.
  induction a as [|x a IH]; [done|]. by rewrite !string_app_cons, IH.
Qed.

Lemma prefix_app (a b : string) : String.prefix a (a +:+ b) = true.
Proof.
  induction a as [|x a IH]; [by destruct b|].
  rewrite string_app_cons. simpl.
  destruct (Ascii.ascii_dec x x); [done|congruence].
Qed.

Lemma under_refl root : Ffmpeg.under root root = true.
Proof. unfold Ffmpeg.under. by rewrite String.eqb_refl. Qed.

Lemma under_below root rest : Ffmpeg.under root (root +:+ "/" +:+ rest) = true.
Proof.
  unfold Ffmpeg.under. rewrite <- string_app_assoc, prefix_app. apply orb_true_r.
Qed.

Lemma joinPath_head a rest :
  a ≠ "" -> joinPath (a :: rest) = a ∨ ∃ r, joinPath (a :: rest) = a +:+ "/" +:+ r.
Proof.
  intros Ha. simpl. rewrite decide_False by done.
  destruct (joinPath rest); eauto.
Qed.

Lemma under_join root rest : root ≠ "" -> Ffmpeg.under root (joinPath (root :: rest)) = true.
Proof.
  intros Hr. destruct (joinPath_head root rest Hr) as [->|[r ->]].
  - apply under_refl.
  - apply under_below.
Qed.

Lemma cacheRoot_nonempty root : joinPath [root; "cache"] ≠ "".
Proof. apply (joinPath_nonempty _ "cache"); [|done]. by repeat constructor. Qed.

(** The folder of an item is the cache folder or lies below it. *)
Lemma savePath_under env id :
  Ffmpeg.savePath env id = joinPath [Ffmpeg.projectRoot env; "cache"]
  ∨ ∃ r, Ffmpeg.savePath env id
         = joinPath [Ffmpeg.projectRoot env; "cache"] +:+ "/" +:+ r.
Proof.
  unfold Ffmpeg.savePath. set (root := Ffmpeg.projectRoot env).
  destruct (decide (root = "")) as [->|Hroot].
  - change (joinPath [""; "cache"; pretty id]) with (joinPath ["cache"; pretty id]).
    change (joinPath [""; "cache"]) with "cache".
    by apply joinPath_head.
  - assert (Hc : joinPath [root; "cache"] = root +:+ "/" +:+ "cache").
    { simpl. by rewrite decide_False. }
    rewrite Hc.
    destruct (joinPath_head "cache" [pretty id]) as [Hj|[r Hj]]; [done| |].
    + left. change (joinPath [root; "cache"; pretty id])
        with (if decide (root = "") then joinPath ["cache"; pretty id]
              else match joinPath ["cache"; pretty id] with
                   | "" => root | r => root +:+ "/" +:+ r end).
      rewrite decide_False, Hj by done. done.
    + right. exists r.
      change (joinPath [root; "cache"; pretty id])
        with (if decide (root = "") then joinPath ["cache"; pretty id]
              else match joinPath ["cache"; pretty id] with
                   | "" => root | r => root +:+ "/" +:+ r end).
      rewrite decide_False, Hj by done. simpl.
      by rewrite !string_app_assoc.
Qed.

Lemma savePath_nonempty env id : Ffmpeg.savePath env id ≠ "".
Proof.
  unfold Ffmpeg.savePath. apply (joinPath_nonempty _ "cache"); [|done].
  by repeat constructor.
Qed.

(** Every file of the disk cache is below the cache folder. *)
Lemma saveFile_under env id t :
  Ffmpeg.under (joinPath [Ffmpeg.projectRoot env; "cache"]) (Ffmpeg.saveFile env id t) = true.
Proof.
  unfold Ffmpeg.saveFile.
  destruct (joinPath_head (Ffmpeg.savePath env id) [pretty t +:+ ".jpg"]
              (savePath_nonempty env id)) as [->|[r ->]];
    destruct (savePath_under env id) as [->|[r' ->]].
  - apply under_refl.
  - apply under_below.
  - apply under_below.
  - rewrite !string_app_assoc. apply under_below.
Qed.

(** X13 (FfmpegThumbnailManager.close).  close always returns normally and
    never changes the manager.  Without fullShutdown the disk is unchanged.
    In every case files outside the cache folder are untouched.  On a full
    shutdown where the cache folder exists and rmSync succeeds, nothing at or
    below the cache folder exists afterwards; in particular no cached
    thumbnail file of any item and timestamp remains. *)
Theorem X13_shutdown_clears_the_disk_cache env fullShutdown w :
  ∃ w' ev,
    Ffmpeg.close env fullShutdown w = (Resolved tt, w', ev)
    ∧ Ffmpeg.mgr w' = Ffmpeg.mgr w
    ∧ (fullShutdown = false -> w' = w)
    ∧ (∀ p, Ffmpeg.under (joinPath [Ffmpeg.projectRoot env; "cache"]) p = false ->
            files (Ffmpeg.fs w') !! p = files (Ffmpeg.fs w) !! p)
    ∧ (fullShutdown = true ->
       Ffmpeg.rmSyncThrows env = false ->
       existsSync (Ffmpeg.fs w) (joinPath [Ffmpeg.projectRoot env; "cache"]) = true ->
       (∀ p, Ffmpeg.under (joinPath [Ffmpeg.projectRoot env; "cache"]) p = true ->
             existsSync (Ffmpeg.fs w') p = false)
       ∧ ∀ id t, files (Ffmpeg.fs w') !! Ffmpeg.saveFile env id t = None).
Proof.
  unfold Ffmpeg.close. set (cacheRoot := joinPath [Ffmpeg.projectRoot env; "cache"]).
  destruct fullShutdown.
  - rewrite bind_emit.
    destruct (existsSync (Ffmpeg.fs w) cacheRoot) eqn:Hex.
    + destruct (Ffmpeg.rmSyncThrows env) eqn:Hrm.
      * eexists _, _. split; [done|]. split; [done|]. split; [done|].
        split; [done|]. done.
      * eexists _, _. split; [done|]. split; [done|]. split; [done|]. simpl.
        assert (Hgone : ∀ p, Ffmpeg.under cacheRoot p = true ->
                  filter (fun kv : string * File => Ffmpeg.under cacheRoot kv.1 = false)
                         (files (Ffmpeg.fs w)) !! p = None).
        { intros p Hp. apply map_lookup_filter_None. right. intros f _. simpl.
          by rewrite Hp. }
        split.
        -- intros p Hp.
           destruct (files (Ffmpeg.fs w) !! p) as [f|] eqn:Hf.
           ++ apply map_lookup_filter_Some. done.
           ++ apply map_lookup_filter_None. by left.
        -- intros _ _ _. split.
           ++ intros p Hp. unfold existsSync. simpl. rewrite (Hgone p Hp).
              rewrite bool_decide_eq_false_2 by (by intros [? ?]).
              rewrite bool_decide_eq_false_2; [done|].
              intros Hin. apply elem_of_filter in Hin as [Hin _]. by rewrite Hp in Hin.
           ++ intros id t. apply Hgone, saveFile_under.
    + eexists _, _. split; [done|]. split; [done|]. split; [done|].
      split; [done|]. intros _ _ Hc. done.
  - eexists _, _. split; [done|]. split; [done|]. split; [done|]. split; done.
Qed.

(** [close] never rejects, does nothing unless it is a full shutdown, and
    never touches a file outside the cache folder. *)
Lemma ff_close_outside env fullShutdown w :
  ∃ w' ev,
    Ffmpeg.close env fullShutdown w = (Resolved tt, w', ev)
    ∧ (fullShutdown = false -> w' = w)
    ∧ (∀ p, Ffmpeg.under (joinPath [Ffmpeg.projectRoot env; "cache"]) p = false ->
            files (Ffmpeg.fs w') !! p = files (Ffmpeg.fs w) !! p).
Proof.
  unfold Ffmpeg.close. destruct fullShutdown.
  - rewrite bind_emit.
    destruct (existsSync (Ffmpeg.fs w) _), (Ffmpeg.rmSyncThrows env);
      eexists _, _; (split; [done|]); (split; [done|]); try done.
    simpl. intros p Hp.
    destruct (files (Ffmpeg.fs w) !! p) as [f|] eqn:Hf.
    + by apply map_lookup_filter_Some.
    + apply map_lookup_filter_None. by left.
  - eexists _, _. split; [done|]. split; done.
Qed.

(** X14 (ThumbnailManager.Close, then Create).  Close leaves no active
    instance and allocates nothing.  A Create that follows it logs no
    'already initialized' warning and makes a fresh manager of the configured
    backend the active instance.  Close without fullShutdown leaves the disk
    as it is, and no Close touches a file outside the cache folder. *)
Theorem X14_close_then_create env fullShutdown fs p c db mp :
  let '(fs', p', _) := ThumbnailManager.Close env fullShutdown fs p in
  let '(r, p'', ev) := ThumbnailManager.Create c db mp p' in
  ThumbnailManager.Instance p' = None
  ∧ ThumbnailManager.active p' = None
  ∧ ThumbnailManager.heap p' = ThumbnailManager.heap p
  ∧ ev = []
  ∧ ThumbnailManager.active p''
    = Some (if c then ThumbnailManager.FfmpegBackend (Ffmpeg.new db)
            else ThumbnailManager.BifBackend (Bif.new db mp))
  ∧ (fullShutdown = false -> fs' = fs)
  ∧ (∀ path, Ffmpeg.under (joinPath [Ffmpeg.projectRoot env; "cache"]) path = false ->
             files fs' !! path = files fs !! path).
Proof.
  unfold ThumbnailManager.Close.
  assert (Hcreate : ∀ (fs' : Disk),
    (fullShutdown = false -> fs' = fs) ->
    (∀ path, Ffmpeg.under (joinPath [Ffmpeg.projectRoot env; "cache"]) path = false ->
             files fs' !! path = files fs !! path) ->
    let '(r, p'', ev) :=
      ThumbnailManager.Create c db mp
        {| ThumbnailManager.heap := ThumbnailManager.heap p;
           ThumbnailManager.nextRef := ThumbnailManager.nextRef p;
           ThumbnailManager.Instance := None |} in
    None = None (A:=nat)
    ∧ ThumbnailManager.active
        {| ThumbnailManager.heap := ThumbnailManager.heap p;
           ThumbnailManager.nextRef := ThumbnailManager.nextRef p;
           ThumbnailManager.Instance := None |} = None
    ∧ ThumbnailManager.heap p = ThumbnailManager.heap p
    ∧ ev = []
    ∧ ThumbnailManager.active p''
      = Some (if c then ThumbnailManager.FfmpegBackend (Ffmpeg.new db)
              else ThumbnailManager.BifBackend (Bif.new db mp))
    ∧ (fullShutdown = false -> fs' = fs)
    ∧ (∀ path, Ffmpeg.under (joinPath [Ffmpeg.projectRoot env; "cache"]) path = false ->
               files fs' !! path = files fs !! path)).
  { intros fs' H1 H2. unfold ThumbnailManager.Create, ThumbnailManager.active. simpl.
    rewrite lookup_insert_eq. done. }
  destruct (ThumbnailManager.Instance p) as [r|]; [|by apply Hcreate].
  destruct (ThumbnailManager.active p) as [[m|m]|]; try by apply Hcreate.
  destruct (ff_close_outside env fullShutdown {| Ffmpeg.fs := fs; Ffmpeg.mgr := m |})
    as (w' & ev & -> & Hsame & Hout).
  apply Hcreate.
  - intros Hf. by rewrite (Hsame Hf).
  - exact Hout.
Qed.

(** * Theme colours *)

Lemma allHex_app s t : Theme.allHex (s +:+ t) = Theme.allHex s && Theme.allHex t.
Proof.
  induction s as [|a s IH]; [done|].
  rewrite string_app_cons. simpl. by rewrite IH, andb_assoc.
Qed.

Lemma validOpacity_inv o :
  Theme.validOpacity o = true -> ∃ a, o = String a "" ∧ Theme.isHexDigit a = true.
Proof. destruct o as [|a [|]]; try done. eauto. Qed.

(** X15 (Theme.getHex).  For every theme, colour category and opacity
    argument (given or omitted) the result is '#' followed by 4 or 8
    hexadecimal digits: the category's colour of the current theme followed
    by one opacity digit for a 3-digit colour and two for a 6-digit colour.
    A valid opacity (one hexadecimal digit) is used as given, doubled for
    6-digit colours, and nothing is logged; any other opacity is replaced by
    F and a warning is logged. *)
Theorem X15_getHex_is_a_hex_colour isDark themeColor opacity :
  ∃ digits alpha,
    (Theme.getHex isDark themeColor opacity).1 = "#" +:+ digits
    ∧ Theme.allHex digits = true
    ∧ (String.length digits = 4%nat ∨ String.length digits = 8%nat)
    ∧ digits = Theme.get isDark themeColor +:+ alpha
    ∧ (String.length alpha = String.length (Theme.get isDark themeColor) / 3)%nat
    ∧ (Theme.validOpacity (default "F" opacity) = true ->
       (alpha = default "F" opacity ∨ alpha = default "F" opacity +:+ default "F" opacity)
       ∧ (Theme.getHex isDark themeColor opacity).2 = [])
    ∧ (Theme.validOpacity (default "F" opacity) = false ->
       (alpha = "F" ∨ alpha = "FF")
       ∧ List.forallb is_warning (Theme.getHex isDark themeColor opacity).2 = true
       ∧ (Theme.getHex isDark themeColor opacity).2 ≠ []).
Proof.
  unfold Theme.getHex, Theme.get.
  destruct (Theme.validOpacity (default "F" opacity)) eqn:Hv.
  - destruct (validOpacity_inv _ Hv) as (a & -> & Ha).
    destruct isDark, themeColor; simpl;
      eexists _, _; (split; [reflexivity|]);
      rewrite ?allHex_app; simpl; rewrite ?Ha; simpl;
      repeat split; auto; done.
  - destruct isDark, themeColor; simpl;
      eexists _, _; (split; [reflexivity|]);
      repeat split; auto; done.
Qed.

(** * Instances of the further properties *)

Lemma X1_witness :
  (tryGet (add Examples.twoThumbs 1 9 [xcc]).1 1 9).1.1 = Some [xcc].
Proof.
  apply (X1_add_then_tryGet Examples.twoThumbs 1 9 [xcc] [xcc]).
  vm_compute. eauto.
Defined.

Lemma X2_witness :
  thumbAt (run Examples.twoThumbs (replicate 200 (OpTryGet 1 6))) 1 5
    = Some {| data := [xaa]; rank := 1 |}
  ∧ thumbAt (run Examples.twoThumbs (replicate 220 (OpTryGet 1 6))) 1 5 = None.
Proof.
  split.
  - destruct (X2_eviction_after_sweeps Examples.twoThumbs (replicate 200 (OpTryGet 1 6))
                1 5 {| data := [xaa]; rank := 201 |}) as [H _].
    + change (0 <= 0 < 20). lia.
    + apply Forall_replicate. intros [_ Heq]. discriminate Heq.
    + vm_compute; reflexivity.
    + rewrite H. vm_compute; reflexivity.
  - destruct (X2_eviction_after_sweeps Examples.twoThumbs (replicate 220 (OpTryGet 1 6))
                1 5 {| data := [xaa]; rank := 201 |}) as [H _].
    + change (0 <= 0 < 20). lia.
    + apply Forall_replicate. intros [_ Heq]. discriminate Heq.
    + vm_compute; reflexivity.
    + rewrite H. vm_compute; reflexivity.
Defined.

Lemma X3_witness :
  wellFormed (run (newCacheMap 200)
                (OpAddItem 1 {| hasThumbs := true; cachedThumbnails := ∅; locator := tt |}
                 :: OpAdd 1 5 [xaa] :: replicate 30 (OpTryGet 1 5))).
Proof.
  apply (X3_reachable_caches_are_well_formed 200
           (OpAddItem 1 {| hasThumbs := true; cachedThumbnails := ∅; locator := tt |}
            :: OpAdd 1 5 [xaa] :: replicate 30 (OpTryGet 1 5))).
  - lia.
  - constructor; [reflexivity|]. constructor; [exact I|].
    apply Forall_replicate. exact I.
Defined.

Lemma X4_witness :
  (Bif.hasThumbnails Fixtures.disk5 5 (Bif.new Fixtures.versions "/plex")).1.1
    = Resolved true
  ∧ Bif.bifPath ∘ locator
      <$> getItem (Bif.cache (Bif.hasThumbnails Fixtures.disk5 5
                                (Bif.new Fixtures.versions "/plex")).1.2) 5
    = Some Fixtures.newerPath.
Proof.
  destruct (X4_newest_index_file_is_selected Fixtures.disk5 5
              (Bif.new Fixtures.versions "/plex")
              [ {| row_id := 1; hash := "a111" |}; {| row_id := 2; hash := "b222" |};
                {| row_id := 3; hash := "c333" |} ])
    as (b & m1 & ev & item & Hres & Hit & Hb & _).
  - vm_compute; reflexivity.
  - vm_compute; reflexivity.
  - repeat constructor; discriminate.
  - vm_compute. split; reflexivity.
Defined.

Lemma X5_witness :
  ∃ s e,
    frameBounds (contents Examples.fileA) (3 - 1) (clamped (3 - 1) (7 / 2)) = Some (s, e)
    ∧ (Bif.readThumbnail Examples.disk 7 7 Examples.bif7).1.1
      = Resolved (byteRange (contents Examples.fileA) s e)
    ∧ Z.of_nat (length (byteRange (contents Examples.fileA) s e)) = e - s.
Proof.
  refine (X5_well_formed_index_serves_every_request Examples.disk 7 Examples.bif7
            Examples.item7 Examples.fileA 2 (withInterval Examples.bif7 7 2) [] 3
            _ _ _ _ _ _ _ 7).
  - vm_compute; reflexivity.
  - vm_compute; reflexivity.
  - vm_compute; reflexivity.
  - discriminate.
  - vm_compute; reflexivity.
  - lia.
  - intros i Hi. assert (i = 0 ∨ i = 1 ∨ i = 2) as [ -> | [ -> | -> ] ] by lia;
      vm_compute; eauto.
Defined.

Lemma X6_witness :
  ∃ m2 ev,
    Bif.getThumbnail Examples.disk 7 3500 Examples.bif7
      = (Resolved (byteRange Examples.scenarioA 0x1000 0x2000), m2, ev)
    ∧ ∃ m3 ev',
        Bif.getThumbnail Fixtures.emptyDisk 7 2100 m2
          = (Resolved (byteRange Examples.scenarioA 0x1000 0x2000), m3, ev')
        ∧ List.forallb is_log ev' = true.
Proof.
  destruct (X6_repeated_fetch_is_served_from_memory Examples.disk 7 3500 Examples.bif7
              Examples.item7 Examples.fileA 2 (withInterval Examples.bif7 7 2) [] 3
              0x1000 0x2000) as (m2 & ev & H1 & H2);
    try (vm_compute; reflexivity).
  - discriminate.
  - vm_compute. split; discriminate.
  - exists m2, ev. split; [exact H1|]. apply H2. reflexivity.
Defined.

Lemma X7_witness :
  (ThumbnailManager.getThumbnail Examples.stalling 9 1000
     (Examples.disk, ThumbnailManager.BifBackend Examples.bif0)).1.1
    = Rejected (ServerError "No thumbnails for 9").
Proof.
  destruct (X7_fetch_without_source_rejects Examples.stalling 9 1000 Examples.disk
              (ThumbnailManager.BifBackend Examples.bif0) Examples.disk
              (ThumbnailManager.BifBackend (Bif.hasThumbnails Examples.disk 9 Examples.bif0).1.2)
              (Bif.hasThumbnails Examples.disk 9 Examples.bif0).2) as (H & _).
  - vm_compute; reflexivity.
  - rewrite H. vm_compute; reflexivity.
Defined.

Lemma X8_witness :
  Bif.getThumbnail Fixtures.emptyDisk 7 3500 Examples.bif7
    = (Rejected (RejectReason "Failed to read thumbnail file"), Examples.bif7,
       [ReadFile (Bif.bifPath (locator Examples.item7))]).
Proof.
  destruct (X8_unreadable_or_truncated_index Fixtures.emptyDisk 7 3500 Examples.bif7
              Examples.item7) as [H _];
    [ vm_compute; reflexivity .. | ].
  apply H. reflexivity.
Defined.

Lemma X9_witness :
  ∃ w2 ev2,
    Ffmpeg.getThumbnail Examples.stalling 7 5099 Fixtures.fetched.1.2
      = (Resolved [xff; xd8; xff; xd9], w2, ev2)
    ∧ List.forallb is_log ev2 = true
    ∧ Ffmpeg.fs w2 = Ffmpeg.fs Fixtures.fetched.1.2.
Proof.
  apply (X9_same_bucket_is_served_from_memory Fixtures.working 7 5000 Examples.world7
           Examples.episode7 [xff; xd8; xff; xd9] Fixtures.fetched.1.2 Fixtures.fetched.2).
  - vm_compute; reflexivity.
  - vm_compute; discriminate.
  - vm_compute; reflexivity.
  - reflexivity.
Defined.

Lemma X10_witness :
  ∃ w' ev,
    Ffmpeg.getThumbnail Fixtures.working 7 5000 Examples.world7
      = (Resolved [xff; xd8; xff; xd9], w', ev)
    ∧ files (Ffmpeg.fs w') !! "/app/cache/7/5000.jpg" = Some Fixtures.frame.
Proof.
  destruct (X10_generation_stores_in_both_tiers Fixtures.working 7 5000 Examples.world7
              Examples.episode7 5000
              {| arg_ss := 5000; arg_input := "/media/ep7.mkv";
                 arg_output := "/app/cache/7/5000.jpg" |}) as [H _];
    try (vm_compute; reflexivity).
  destruct (H Fixtures.frame) as (w' & ev & Hres & _ & Hfile & _); [reflexivity|].
  exists w', ev. split; [exact Hres|]. exact Hfile.
Defined.

Lemma X11_witness :
  (Ffmpeg.hasThumbnails 5
     {| Ffmpeg.fs := Fixtures.disk5; Ffmpeg.mgr := Ffmpeg.new Fixtures.versions |}).1.1
    = Resolved true
  ∧ locator
      <$> getItem (Ffmpeg.cache (Ffmpeg.mgr (Ffmpeg.hasThumbnails 5
            {| Ffmpeg.fs := Fixtures.disk5;
               Ffmpeg.mgr := Ffmpeg.new Fixtures.versions |}).1.2)) 5
    = Some {| Ffmpeg.filePath := "/media/ep5.mkv"; Ffmpeg.duration := 60000 |}.
Proof.
  destruct (X11_first_existing_file_is_selected 5
              {| Ffmpeg.fs := Fixtures.disk5; Ffmpeg.mgr := Ffmpeg.new Fixtures.versions |}
              [ {| file := "/media/gone.mkv"; row_duration := 90000 |};
                {| file := "/media/ep5.mkv"; row_duration := 60000 |} ])
    as (b & w1 & ev & item & Hres & _).
  - vm_compute; reflexivity.
  - vm_compute; reflexivity.
  - vm_compute. split; reflexivity.
Defined.
